(** * Checkpoints (src/checkpoints.cpp): a shallow embedding and its properties

    The file embeds namespace [Checkpoints] of checkpoints.cpp: the three
    compiled-in checkpoint tables and profiles, the network selector
    [Checkpoints()], [CheckBlock], [GuessVerificationProgress],
    [GetTotalBlocksEstimate] and [GetLastCheckpoint].

    Conventions.
    - C++ integers are [Z] with the wrap-around of their width written out.
    - [std::map<int, uint256>] is the list of its (key, value) pairs in
      iteration order, that is, strictly increasing by key.
    - [std::map<uint256, CBlockIndex*>] is only ever searched with [find];
      it is a [gmap] from hashes to pointers.
    - a pointer [CBlockIndex*] is an [option]: [None] is [NULL].
    - the globals read by the functions ([fEnabled], [Params().NetworkID()],
      the clock behind [time(NULL)]) are the fields of an environment [Env].
    - [double] arithmetic is an interface [Arith]. The code as it runs is
      the instance [binary64]: IEEE 754 binary64 ([float], Rocq's primitive
      floats), every conversion and operation rounding to nearest even on
      its own (no excess precision, no fused multiply-add). What is said
      of the values the program returns is said of this instance. A second
      instance, [exact], gives the value the same expressions have when
      nothing rounds; it is the yardstick the binary64 result is measured
      against, never a stand-in for it. *)

From Stdlib Require Import ZArith List Bool Lia QArith Qpower Lqa Floats.
From stdpp Require Import base option list sorting gmap.

Import ListNotations.
Local Open Scope Z_scope.

(** ** Machine integers *)

Module Int.

Definition wrap_unsigned (bits z : Z) : Z := z mod 2 ^ bits.

Definition wrap_signed (bits z : Z) : Z :=
  (z + 2 ^ (bits - 1)) mod 2 ^ bits - 2 ^ (bits - 1).

Definition in_unsigned (bits z : Z) : Prop := 0 <= z < 2 ^ bits.
Definition in_signed (bits z : Z) : Prop := - 2 ^ (bits - 1) <= z < 2 ^ (bits - 1).

(** [int64_t - int64_t] (two's complement). *)
Definition sub_i64 (a b : Z) : Z := wrap_signed 64 (a - b).

(** [uint64_t - uint64_t]. *)
Definition sub_u64 (a b : Z) : Z := wrap_unsigned 64 (a - b).

(** Conversion of an [int64_t] operand to [uint64_t] (the usual arithmetic
    conversions when the other operand is [uint64_t]). *)
Definition u64_of_i64 (a : Z) : Z := wrap_unsigned 64 a.

End Int.

(** ** Data model *)

(** [uint256]: a 256-bit unsigned number; [uint256("0x...")] reads the
    hexadecimal numeral, written here as a hexadecimal literal. *)
Definition uint256 := Z.

(** [typedef std::map<int, uint256> MapCheckpoints]: the pairs in iteration
    order. *)
Definition MapCheckpoints := list (Z * uint256).

Module StdMap.

(** [std::map::insert]: the pair goes to its place in key order; a key that
    is already present keeps its value. *)
Fixpoint insert (kv : Z * uint256) (m : MapCheckpoints) : MapCheckpoints :=
  match m with
  | [] => [kv]
  | kv' :: m' =>
      if fst kv <? fst kv' then kv :: m
      else if fst kv =? fst kv' then m
      else kv' :: insert kv m'
  end.

(** [boost::assign::map_list_of (k1, v1) (k2, v2) ...] converted to a
    [std::map]: the pairs are inserted one after the other. *)
Definition map_list_of (l : list (Z * uint256)) : MapCheckpoints :=
  fold_left (fun m kv => insert kv m) l [].

(** [m.find(k)]: [None] is [m.end()]. *)
Fixpoint find (k : Z) (m : MapCheckpoints) : option (Z * uint256) :=
  match m with
  | [] => None
  | kv :: m' => if fst kv =? k then Some kv else find k m'
  end.

(** [m.rbegin()]: the last pair in key order; dereferencing it on an empty
    map is undefined, which is [None] here. *)
Definition rbegin (m : MapCheckpoints) : option (Z * uint256) := last m.

(** The order in which [BOOST_REVERSE_FOREACH] visits the pairs. *)
Definition reverse_order (m : MapCheckpoints) : list (Z * uint256) := rev m.

(** Keys strictly increasing in iteration order. *)
Fixpoint sorted (m : MapCheckpoints) : bool :=
  match m with
  | [] => true
  | kv :: m' =>
      match m' with
      | [] => true
      | kv' :: _ => (fst kv <? fst kv') && sorted m'
      end
  end.

(** The order of the keys, and its mirror image. *)
Definition before (a b : Z * uint256) : Prop := fst a < fst b.
Definition after (a b : Z * uint256) : Prop := fst b < fst a.

End StdMap.

(** ** [double] arithmetic *)

(** The operations [GuessVerificationProgress] performs on [double]s:
    conversion from an integer type, [+], [*] and [/]. *)
Class Arith (D : Type) := {
  of_int : Z -> D;
  fadd : D -> D -> D;
  fmul : D -> D -> D;
  fdiv : D -> D -> D
}.

(** The machine's [double]: IEEE 754 binary64, round to nearest even. An
    integer converts to the nearest [double]. *)
Definition double_of_int (z : Z) : float :=
  SF2Prim (binary_normalize prec emax z 0 false).

#[export] Instance binary64 : Arith float := {|
  of_int := double_of_int;
  fadd := PrimFloat.add;
  fmul := PrimFloat.mul;
  fdiv := PrimFloat.div
|}.

(** The ideal value of the same operations: rationals, and [Undefined] for
    the result of a division by zero and of every operation on it. The
    program does not compute in this arithmetic; it rounds after every
    operation. The instance serves as the reference for the rounding error
    of the binary64 result. *)
Inductive exact : Type :=
  | Exact (q : Q)
  | Undefined.

Definition exact_lift (op : Q -> Q -> Q) (x y : exact) : exact :=
  match x, y with
  | Exact a, Exact b => Exact (op a b)
  | _, _ => Undefined
  end.

Definition exact_div (x y : exact) : exact :=
  match x, y with
  | Exact a, Exact b => if Qeq_bool b 0 then Undefined else Exact (a / b)%Q
  | _, _ => Undefined
  end.

#[export] Instance exact_arith : Arith exact := {|
  of_int := fun z => Exact (inject_Z z);
  fadd := exact_lift Qplus;
  fmul := exact_lift Qmult;
  fdiv := exact_div
|}.

(** [r] is a number between 0 and 1, as [double]s compare. *)
Definition in_unit_interval (r : float) : bool :=
  (PrimFloat.leb PrimFloat.zero r) && (PrimFloat.leb r PrimFloat.one).

(** The rational number a binary64 datum stands for: mantissa times two to
    the exponent, with its sign; 0 for infinities and NaN. *)
Definition SF2Q (x : spec_float) : Q :=
  match x with
  | S754_finite s m e =>
      ((if s then -1 else 1) * inject_Z (Z.pos m) * 2 ^ e)%Q
  | _ => 0%Q
  end.

Definition B2Q (f : float) : Q := SF2Q (Prim2SF f).

(** ** The profiles *)

(** [struct CCheckpointData]; the pointer to the table is the table. *)
Record CCheckpointData (D : Type) := {
  mapCheckpoints : MapCheckpoints;
  nTimeLastCheckpoint : Z;
  nTransactionsLastCheckpoint : Z;
  fTransactionsPerDay : D
}.
Arguments mapCheckpoints {D} _.
Arguments nTimeLastCheckpoint {D} _.
Arguments nTransactionsLastCheckpoint {D} _.
Arguments fTransactionsPerDay {D} _.

(** Modelled from the spec: [CBlockIndex] is declared in main.h, which is
    not part of the sources at hand. The spec's ChainIndexRef gives the two
    members read here and their types: [nChainTx] (cumulativeTxCount,
    uint64) and [nTime] (blockTime, uint32). *)
Record CBlockIndex := {
  nChainTx : Z;
  nTime : Z
}.

Definition wf_CBlockIndex (b : CBlockIndex) : Prop :=
  Int.in_unsigned 64 (nChainTx b) /\ Int.in_unsigned 32 (nTime b).

(** Modelled from the spec: [CChainParams::Network] is declared in
    chainparams.h, which is not part of the sources at hand. The spec names
    the identifiers Main, Test and Regtest; [OTHER] stands for any further
    value an object of the enumeration type may hold. *)
Inductive Network : Type :=
  | MAIN
  | TESTNET
  | REGTEST
  | OTHER (tag : Z).

#[export] Instance Network_eq_dec : EqDecision Network.
Proof. solve_decision. Defined.

(** What the functions read from outside: the global [fEnabled], the value
    of [Params().NetworkID()] and the value [time(NULL)] returns (stored in
    an [int64_t]). *)
Record Env := {
  fEnabled : bool;
  NetworkID : Network;
  clock : Z
}.

(** The clock value is an [int64_t] from which a 32-bit time can be
    subtracted without signed overflow (every time since 1970 is one). *)
Definition wf_Env (env : Env) : Prop := - 2 ^ 63 + 2 ^ 32 <= clock env < 2 ^ 63.

(** [static const double SIGCHECK_VERIFICATION_FACTOR = 5.0] *)
Definition SIGCHECK_VERIFICATION_FACTOR {D} `{Arith D} : D := of_int 5.

(** [static MapCheckpoints mapCheckpoints], the Main table; the name
    [mapCheckpoints] itself is the member of [CCheckpointData] here. *)
Definition mapCheckpoints_main : MapCheckpoints :=
  StdMap.map_list_of
    [ (     0, 0x00000f639db5734b2b861ef8dbccc33aebd7de44d13de000a12d093bcc866c64);
      (  6143, 0x0000000026fb51f5bc9943ed69d9ff7697ecf7fed419d88b417655f93a487ce1);
      ( 12797, 0x000000002c29644e179baa188fa6b9b9454721f1f21f2b9f31eebe9acc1a31db);
      ( 30092, 0x0000000098a23e1c503f71a6d61c333c5abaabb4c5fa1b474012e004db4bfbbe);
      ( 80998, 0x000000010ebcfe9a00a99f2b61104f4a141555a707f1c007aba8a978f6030cfb);
      (144759, 0x000000047e7b7bfd63b4f019a0a24c8d65b10afa6eb80721e10fa7c49ce6fb6e);
      (189046, 0x00000000bd507c435b46ee8a13b25b85ec38fdb0eb5b00faeaa0611cd6a483d3);
      (277316, 0x00000016a20503fe496e79d34fb85c33f633059315c046ffa1b4826d08a1e856);
      (483849, 0x000001eb7f8124282ab62296e63d3145ff6c84cf18afae4d4b8e02cd3182b6a8);
      (1066428, 0x000000012dc5256d977b50270d1ca5642726308dcf26b6c219985edb8f2ab8f6) ].

(** [static const CCheckpointData data]; the rate is the integer literal
    converted to [double]. *)
Definition data {D} `{Arith D} : CCheckpointData D := {|
  mapCheckpoints := mapCheckpoints_main;
  nTimeLastCheckpoint := 1490629503;
  nTransactionsLastCheckpoint := 1179921;
  fTransactionsPerDay := of_int 960
|}.

Definition mapCheckpointsTestnet : MapCheckpoints :=
  StdMap.map_list_of
    [ (0, 0x0000082f5939c2154dbcba35f784530d12e9d72472fcfaf29674ea312cdf4c83) ].

Definition dataTestnet {D} `{Arith D} : CCheckpointData D := {|
  mapCheckpoints := mapCheckpointsTestnet;
  nTimeLastCheckpoint := 1388868139;
  nTransactionsLastCheckpoint := 0;
  fTransactionsPerDay := of_int 960
|}.

Definition mapCheckpointsRegtest : MapCheckpoints :=
  StdMap.map_list_of
    [ (0, 0x000008ca1832a4baf228eb1553c03d3a2c8e02399550dd6ea8d65cec3ef23d2e) ].

Definition dataRegtest {D} `{Arith D} : CCheckpointData D := {|
  mapCheckpoints := mapCheckpointsRegtest;
  nTimeLastCheckpoint := 0;
  nTransactionsLastCheckpoint := 0;
  fTransactionsPerDay := of_int 0
|}.

(** ** The operations *)

(** [const CCheckpointData &Checkpoints()] *)
Definition Checkpoints {D} `{Arith D} (env : Env) : CCheckpointData D :=
  if decide (NetworkID env = TESTNET) then dataTestnet
  else if decide (NetworkID env = MAIN) then data
  else dataRegtest.

(** [bool CheckBlock(int nHeight, const uint256& hash)] *)
Definition CheckBlock (env : Env) (nHeight : Z) (hash : uint256) : bool :=
  if negb (fEnabled env) then true
  else
    let checkpoints := mapCheckpoints (Checkpoints (D := float) env) in
    match StdMap.find nHeight checkpoints with
    | None => true
    | Some i => hash =? snd i
    end.

(** [double GuessVerificationProgress(CBlockIndex *pindex, bool fSigchecks)] *)
Definition GuessVerificationProgress {D} `{Arith D}
    (env : Env) (pindex : option CBlockIndex) (fSigchecks : bool) : D :=
  match pindex with
  | None => of_int 0
  | Some pindex =>
      let nNow := clock env in
      let fSigcheckVerificationFactor :=
        if fSigchecks then SIGCHECK_VERIFICATION_FACTOR else of_int 1 in
      let data := Checkpoints env in
      let '(fWorkBefore, fWorkAfter) :=
        if nChainTx pindex <=? Int.u64_of_i64 (nTransactionsLastCheckpoint data) then
          let nCheapBefore := of_int (nChainTx pindex) in
          let nCheapAfter :=
            of_int (Int.sub_u64 (Int.u64_of_i64 (nTransactionsLastCheckpoint data))
                                (nChainTx pindex)) in
          let nExpensiveAfter :=
            fmul (fdiv (of_int (Int.sub_i64 nNow (nTimeLastCheckpoint data)))
                       (of_int 86400))
                 (fTransactionsPerDay data) in
          (nCheapBefore,
           fadd nCheapAfter (fmul nExpensiveAfter fSigcheckVerificationFactor))
        else
          let nCheapBefore := of_int (nTransactionsLastCheckpoint data) in
          let nExpensiveBefore :=
            of_int (Int.sub_u64 (nChainTx pindex)
                                (Int.u64_of_i64 (nTransactionsLastCheckpoint data))) in
          let nExpensiveAfter :=
            fmul (fdiv (of_int (Int.sub_i64 nNow (nTime pindex))) (of_int 86400))
                 (fTransactionsPerDay data) in
          (fadd nCheapBefore (fmul nExpensiveBefore fSigcheckVerificationFactor),
           fmul nExpensiveAfter fSigcheckVerificationFactor)
      in
      fdiv fWorkBefore (fadd fWorkBefore fWorkAfter)
  end.

(** [int GetTotalBlocksEstimate()]; [None] where the code dereferences
    [rbegin()] of an empty map. *)
Definition GetTotalBlocksEstimate (env : Env) : option Z :=
  if negb (fEnabled env) then Some 0
  else
    let checkpoints := mapCheckpoints (Checkpoints (D := float) env) in
    fst <$> StdMap.rbegin checkpoints.

(** The loop of [GetLastCheckpoint] over the pairs still to visit. *)
Fixpoint GetLastCheckpoint_loop (todo : list (Z * uint256))
    (mapBlockIndex : gmap Z (option CBlockIndex)) : option CBlockIndex :=
  match todo with
  | [] => None
  | i :: todo' =>
      let hash := snd i in
      match mapBlockIndex !! hash with
      | Some t => t
      | None => GetLastCheckpoint_loop todo' mapBlockIndex
      end
  end.

(** [CBlockIndex* GetLastCheckpoint(const std::map<uint256, CBlockIndex*>&)] *)
Definition GetLastCheckpoint (env : Env)
    (mapBlockIndex : gmap Z (option CBlockIndex)) : option CBlockIndex :=
  if negb (fEnabled env) then None
  else
    let checkpoints := mapCheckpoints (Checkpoints (D := float) env) in
    GetLastCheckpoint_loop (StdMap.reverse_order checkpoints) mapBlockIndex.

(** [env] with [fEnabled] set to [b]. *)
Definition set_fEnabled (b : bool) (env : Env) : Env :=
  {| fEnabled := b; NetworkID := NetworkID env; clock := clock env |}.

(** ** The formula of the specification

    Section 4.3 of the specification, in its words and over the integers of
    mathematics: [F] is 5.0 in fast mode and 1.0 otherwise; [Tc], [tc] and
    [R] are the profile's last-checkpoint transaction count, time and rate.
    Case A ([txCount <= Tc]): workBefore = txCount,
    cheapRemainder = Tc - txCount, projected = (now - tc)/86400 * R,
    workAfter = cheapRemainder + projected*F. Case B:
    workBefore = Tc + (txCount - Tc)*F,
    workAfter = (now - refTime)/86400 * R * F. The result is
    workBefore / (workBefore + workAfter). *)
Definition spec_progress {D} `{Arith D} (Tc tc : Z) (R : D)
    (now txCount refTime : Z) (fastMode : bool) : D :=
  let F := if fastMode then of_int 5 else of_int 1 in
  let workBefore :=
    if txCount <=? Tc then of_int txCount
    else fadd (of_int Tc) (fmul (of_int (txCount - Tc)) F) in
  let workAfter :=
    if txCount <=? Tc then
      let cheapRemainder := of_int (Tc - txCount) in
      let projected := fmul (fdiv (of_int (now - tc)) (of_int 86400)) R in
      fadd cheapRemainder (fmul projected F)
    else fmul (fmul (fdiv (of_int (now - refTime)) (of_int 86400)) R) F in
  fdiv workBefore (fadd workBefore workAfter).

(** ** The two amounts of work in exact arithmetic

    What [workBefore] and [workAfter] of the formula are when no operation
    rounds: rational functions of the integers read. *)
Module ExactModel.
Definition factor (fastMode : bool) : Q := inject_Z (if fastMode then 5 else 1).

Definition work_before (Tc txCount : Z) (fastMode : bool) : Q :=
  if txCount <=? Tc then inject_Z txCount
  else inject_Z Tc + inject_Z (txCount - Tc) * factor fastMode.

Definition work_after (Tc tc : Z) (R : Q) (now txCount refTime : Z)
    (fastMode : bool) : Q :=
  if txCount <=? Tc then
    inject_Z (Tc - txCount) +
    inject_Z (now - tc) / inject_Z 86400 * R * factor fastMode
  else inject_Z (now - refTime) / inject_Z 86400 * R * factor fastMode.
End ExactModel.

(** ** Classes of binary64 numbers

    Predicates on the specification-level view ([spec_float]) of binary64
    numbers, used to follow the sign and the size of the intermediate
    results of GuessVerificationProgress. *)
Module Binary64.

Abbreviation fexp := (SpecFloat.fexp prec emax).

(** The order of positive valid numbers: by exponent, then by mantissa. *)
Definition lex_le (m1 : positive) (e1 : Z) (m2 : positive) (e2 : Z) : Prop :=
  e1 < e2 \/ (e1 = e2 /\ Z.pos m1 <= Z.pos m2).

Definition SFone : spec_float := S754_finite false 4503599627370496 (-52).

(** Numbers that are zero or positive and below [2 ^ k]. *)
Definition small (k : Z) (x : spec_float) : Prop :=
  match x with
  | S754_zero _ => True
  | S754_finite false m e => Zdigits2 (Z.pos m) + e <= k
  | _ => False
  end.

(** Positive numbers with exponent at least [lo] and below [2 ^ hi]. *)
Definition pos_small (lo hi : Z) (x : spec_float) : Prop :=
  match x with
  | S754_finite false m e => lo <= e /\ Zdigits2 (Z.pos m) + e <= hi
  | _ => False
  end.

Definition is_zero_SF (x : spec_float) : Prop :=
  match x with S754_zero _ => True | _ => False end.

(** A mantissa at an exponent, as a rational number. *)
Definition mag (m e : Z) : Q := (inject_Z m * 2 ^ e)%Q.

(** One unit in the last place of a 53-digit mantissa, relative to it:
    [2 ^ -52]. *)
Definition ulp52 : Q := 1 # 4503599627370496.

(** [f] is a zero and [r] is 0, or [f] is a positive number with exponent
    at least [lo], below [2 ^ hi] and between [alpha * r] and [beta * r]. *)
Definition approx (lo hi : Z) (alpha beta : Q) (f : float) (r : Q) : Prop :=
  (is_zero_SF (Prim2SF f) /\ (r == 0)%Q) \/
  (pos_small lo hi (Prim2SF f) /\ (0 < r)%Q /\ (alpha * r <= B2Q f <= beta * r)%Q).

(** Where the denominator of GuessVerificationProgress is zero: no
    transactions so far, none at the last checkpoint, and none expected
    after it (zero rate, or no time elapsed since the checkpoint). *)
Definition zero_work (Tc tc : Z) (R : float) (now txCount : Z) : bool :=
  (txCount =? 0) && (Tc =? 0) && (PrimFloat.eqb R 0 || (now =? tc)).

End Binary64.

(** * Properties *)

(** ** Machine integers *)

Module IntFacts.
Import Int.

Lemma wrap_unsigned_id bits z : in_unsigned bits z -> wrap_unsigned bits z = z.
Proof. unfold in_unsigned, wrap_unsigned. intros Hz. apply Z.mod_small. exact Hz. Qed.

Lemma wrap_signed_id bits z :
  0 < bits -> in_signed bits z -> wrap_signed bits z = z.
Proof.
  unfold in_signed, wrap_signed. intros Hb Hz.
  assert (E : 2 ^ bits = 2 * 2 ^ (bits - 1)).
  { replace bits with (Z.succ (bits - 1)) at 1 by lia.
    rewrite Z.pow_succ_r by lia. reflexivity. }
  rewrite Z.mod_small by lia. lia.
Qed.

Lemma sub_u64_id a b : 0 <= b <= a -> a < 2 ^ 64 -> sub_u64 a b = a - b.
Proof.
  intros Hab Ha. unfold sub_u64. apply wrap_unsigned_id. unfold in_unsigned. lia.
Qed.

Lemma sub_i64_id a b :
  - 2 ^ 63 <= a - b < 2 ^ 63 -> sub_i64 a b = a - b.
Proof.
  intros Hab. unfold sub_i64. apply wrap_signed_id; [lia|].
  unfold in_signed. replace (64 - 1) with 63 by lia. exact Hab.
Qed.

Lemma u64_of_i64_id a : 0 <= a < 2 ^ 63 -> u64_of_i64 a = a.
Proof.
  intros Ha. unfold u64_of_i64. apply wrap_unsigned_id. unfold in_unsigned. lia.
Qed.

End IntFacts.

(** ** The ordered map *)

Module StdMapFacts.
Import StdMap.

Lemma sorted_tail kv m : sorted (kv :: m) = true -> sorted m = true.
Proof.
  destruct m as [|kv' m]; [reflexivity|].
  cbn [sorted]. intros H. apply andb_prop in H. tauto.
Qed.

Lemma sorted_StronglySorted m : sorted m = true -> StronglySorted before m.
Proof.
  induction m as [|kv m IH]; intros Hs; [constructor|].
  specialize (IH (sorted_tail _ _ Hs)).
  constructor; [exact IH|].
  destruct m as [|kv' m]; [constructor|].
  cbn [sorted] in Hs. apply andb_prop in Hs as [Hlt _]. apply Z.ltb_lt in Hlt.
  apply StronglySorted_inv in IH as [_ IH].
  constructor; [exact Hlt|].
  eapply List.Forall_impl; [|exact IH].
  intros kv'' Hb. unfold before in *. cbn beta in Hb. lia.
Qed.

Lemma insert_head kv m :
  exists kv0 m0, insert kv m = kv0 :: m0 /\
    (fst kv0 = fst kv \/ exists m', m = kv0 :: m').
Proof.
  destruct m as [|kv' m]; cbn [insert].
  - exists kv, []. split; [reflexivity|left; reflexivity].
  - destruct (fst kv <? fst kv') eqn:E1.
    + exists kv, (kv' :: m). split; [reflexivity|left; reflexivity].
    + destruct (fst kv =? fst kv') eqn:E2.
      * exists kv', m. split; [reflexivity|right; exists m; reflexivity].
      * exists kv', (insert kv m). split; [reflexivity|right; exists m; reflexivity].
Qed.

Lemma insert_sorted kv m : sorted m = true -> sorted (insert kv m) = true.
Proof.
  induction m as [|kv' m IH]; intros Hs; [reflexivity|].
  cbn [insert].
  destruct (fst kv <? fst kv') eqn:E1.
  - cbn [sorted]. rewrite E1. exact Hs.
  - destruct (fst kv =? fst kv') eqn:E2; [exact Hs|].
    specialize (IH (sorted_tail _ _ Hs)).
    destruct (insert_head kv m) as (kv0 & m0 & E & Hhd).
    rewrite E in IH |- *. revert IH. cbn [sorted]. intros IH.
    apply andb_true_intro. split; [|exact IH].
    apply Z.ltb_lt. apply Z.ltb_ge in E1. apply Z.eqb_neq in E2.
    destruct Hhd as [-> | [m' ->]]; [lia|].
    cbn [sorted] in Hs. apply andb_prop in Hs as [Hlt _].
    apply Z.ltb_lt in Hlt. exact Hlt.
Qed.

(** Whatever pairs a table is built from, it iterates in strictly
    increasing key order. *)
Lemma map_list_of_sorted l : sorted (map_list_of l) = true.
Proof.
  unfold map_list_of.
  assert (G : forall m, sorted m = true ->
                sorted (fold_left (fun m kv => insert kv m) l m) = true).
  { induction l as [|kv l IH]; intros m Hm; [exact Hm|].
    cbn [fold_left]. apply IH, insert_sorted, Hm. }
  apply G. reflexivity.
Qed.

Lemma find_Some k m kv : find k m = Some kv -> In kv m /\ fst kv = k.
Proof.
  induction m as [|kv' m IH]; cbn [find]; [discriminate|].
  destruct (fst kv' =? k) eqn:E.
  - intros [= <-]. apply Z.eqb_eq in E. split; [left; reflexivity|exact E].
  - intros Hf. destruct (IH Hf) as [Hin Hk]. split; [right; exact Hin|exact Hk].
Qed.

Lemma find_None k m : find k m = None -> forall v, ~ In (k, v) m.
Proof.
  induction m as [|kv' m IH]; cbn [find]; intros Hf v Hin; [exact Hin|].
  destruct (fst kv' =? k) eqn:E; [discriminate|].
  destruct Hin as [-> | Hin].
  - cbn [fst] in E. rewrite Z.eqb_refl in E. discriminate.
  - exact (IH Hf v Hin).
Qed.

Lemma find_In k v m : sorted m = true -> In (k, v) m -> find k m = Some (k, v).
Proof.
  intros Hs. apply sorted_StronglySorted in Hs.
  induction Hs as [|kv m Hs IH Hall]; intros Hin; [destruct Hin|].
  cbn [find]. destruct Hin as [-> | Hin].
  - cbn [fst]. rewrite Z.eqb_refl. reflexivity.
  - destruct (fst kv =? k) eqn:E; [|exact (IH Hin)].
    apply Z.eqb_eq in E. rewrite List.Forall_forall in Hall.
    specialize (Hall _ Hin). unfold before in Hall. cbn [fst] in Hall. lia.
Qed.

Lemma rbegin_max m kv :
  sorted m = true -> rbegin m = Some kv ->
  In kv m /\ forall kv', In kv' m -> fst kv' <= fst kv.
Proof.
  intros Hs Hl. unfold rbegin in Hl. apply last_Some in Hl as [m' ->].
  split; [apply in_or_app; right; left; reflexivity|].
  intros kv' Hin. apply sorted_StronglySorted in Hs.
  apply in_app_or in Hin as [Hin | [<- | []]]; [|lia].
  apply StronglySorted_app in Hs as (Hb & _ & _).
  apply list_elem_of_In in Hin.
  specialize (Hb kv' kv Hin (list_elem_of_here _ _)). unfold before in Hb. lia.
Qed.

Lemma reverse_order_descending m :
  sorted m = true -> StronglySorted after (reverse_order m).
Proof.
  intros Hs. apply sorted_StronglySorted in Hs. unfold reverse_order.
  induction Hs as [|kv m Hs IH Hall]; [constructor|].
  cbn [rev]. apply StronglySorted_app. split; [|split].
  - intros a b Ha Hb. apply list_elem_of_In in Ha. apply in_rev in Ha.
    apply list_elem_of_In in Hb. destruct Hb as [<- | []].
    rewrite List.Forall_forall in Hall. exact (Hall _ Ha).
  - exact IH.
  - repeat constructor.
Qed.

End StdMapFacts.

(** ** The network selector and the tables *)

Section Selector.
Context {D : Type} `{Arith D}.

Lemma Checkpoints_cases (env : Env) :
  (NetworkID env = TESTNET /\ Checkpoints env = dataTestnet) \/
  (NetworkID env = MAIN /\ Checkpoints env = data) \/
  (NetworkID env <> TESTNET /\ NetworkID env <> MAIN /\
   Checkpoints env = dataRegtest).
Proof.
  unfold Checkpoints.
  destruct (decide (NetworkID env = TESTNET)) as [Ht|Ht]; [left; split; [exact Ht|reflexivity]|].
  destruct (decide (NetworkID env = MAIN)) as [Hm|Hm]; [right; left; split; [exact Hm|reflexivity]|].
  right; right. repeat split; assumption.
Qed.

Lemma table_sorted (env : Env) :
  StdMap.sorted (mapCheckpoints (Checkpoints env)) = true.
Proof.
  destruct (Checkpoints_cases env) as [[_ ->] | [[_ ->] | (_ & _ & ->)]];
    apply StdMapFacts.map_list_of_sorted.
Qed.

Lemma Checkpoints_MAIN (env : Env) : NetworkID env = MAIN -> Checkpoints env = data.
Proof.
  intros Hm. destruct (Checkpoints_cases env) as [[Hn _] | [[_ E] | (_ & Hn & _)]];
    [congruence|exact E|congruence].
Qed.

Lemma Checkpoints_neither (env : Env) :
  NetworkID env <> TESTNET -> NetworkID env <> MAIN -> Checkpoints env = dataRegtest.
Proof.
  intros Ht Hm. destruct (Checkpoints_cases env) as [[Hn _] | [[Hn _] | (_ & _ & E)]];
    [congruence|congruence|exact E].
Qed.

End Selector.

(** C9. The selector is total: an identifier that is neither TESTNET nor
    MAIN, whether it is REGTEST or any other value, selects the Regtest
    profile, TESTNET and MAIN select theirs, and so the result is always one
    of the three compiled-in profiles. *)
Theorem Checkpoints_total {D : Type} `{Arith D} (env : Env) :
  (NetworkID env <> TESTNET -> NetworkID env <> MAIN ->
   Checkpoints env = dataRegtest) /\
  (NetworkID env = TESTNET -> Checkpoints env = dataTestnet) /\
  (NetworkID env = MAIN -> Checkpoints env = data) /\
  (Checkpoints env = data \/ Checkpoints env = dataTestnet \/
   Checkpoints env = dataRegtest).
Proof.
  destruct (Checkpoints_cases env) as [[Hn ->] | [[Hn ->] | (Ht & Hm & ->)]].
  - repeat split; try congruence. right; left; reflexivity.
  - repeat split; try congruence. left; reflexivity.
  - repeat split; try congruence. right; right; reflexivity.
Qed.

Lemma Checkpoints_total_witness :
  Checkpoints (D := float)
    {| fEnabled := true; NetworkID := OTHER 3; clock := 0 |} = dataRegtest.
Proof.
  apply (Checkpoints_total {| fEnabled := true; NetworkID := OTHER 3; clock := 0 |});
    discriminate.
Defined.

(** ** CheckBlock *)

(** C1. With checkpoints disabled CheckBlock accepts everything. With
    checkpoints enabled it accepts every hash at a height that the active
    table does not pin, and at a pinned height it accepts exactly the pinned
    hash and returns false for every other one. *)
Theorem CheckBlock_spec (env : Env) (nHeight : Z) (hash : uint256) :
  let table := mapCheckpoints (Checkpoints (D := float) env) in
  (fEnabled env = false -> CheckBlock env nHeight hash = true) /\
  (fEnabled env = true ->
   ((forall pinned, ~ In (nHeight, pinned) table) ->
    CheckBlock env nHeight hash = true) /\
   (forall pinned, In (nHeight, pinned) table ->
    (CheckBlock env nHeight hash = true <-> hash = pinned) /\
    (hash <> pinned -> CheckBlock env nHeight hash = false))).
Proof.
  intros table. unfold CheckBlock. fold table. split.
  - intros ->. reflexivity.
  - intros ->. cbn [negb]. split.
    + intros Habsent.
      destruct (StdMap.find nHeight table) as [[k v]|] eqn:E; [|reflexivity].
      apply StdMapFacts.find_Some in E as [Hin Hk]. cbn [fst] in Hk. subst k.
      destruct (Habsent v Hin).
    + intros pinned Hin.
      pose proof (StdMapFacts.find_In nHeight pinned table (table_sorted env) Hin) as E.
      rewrite E. cbn [snd].
      split; [apply Z.eqb_eq|]. apply Z.eqb_neq.
Qed.

Lemma CheckBlock_spec_witness :
  CheckBlock {| fEnabled := true; NetworkID := MAIN; clock := 0 |} 6143
    0x0000000026fb51f5bc9943ed69d9ff7697ecf7fed419d88b417655f93a487ce1 = true /\
  CheckBlock {| fEnabled := true; NetworkID := MAIN; clock := 0 |} 6143 1 = false /\
  CheckBlock {| fEnabled := true; NetworkID := MAIN; clock := 0 |} 6144 1 = true /\
  CheckBlock {| fEnabled := false; NetworkID := MAIN; clock := 0 |} 6143 1 = true.
Proof.
  pose (on := {| fEnabled := true; NetworkID := MAIN; clock := 0 |}).
  pose (pinned := 0x0000000026fb51f5bc9943ed69d9ff7697ecf7fed419d88b417655f93a487ce1).
  assert (Hin : In (6143, pinned) (mapCheckpoints (Checkpoints (D := float) on))).
  { vm_compute. right; left; reflexivity. }
  split; [|split; [|split]].
  - apply (proj1 (proj2 (proj2 (CheckBlock_spec on 6143 pinned) eq_refl) pinned Hin)).
    reflexivity.
  - refine (proj2 (proj2 (proj2 (CheckBlock_spec on 6143 1) eq_refl) pinned Hin) _).
    discriminate.
  - apply (proj1 (proj2 (CheckBlock_spec on 6144 1) eq_refl)).
    intros p Hp. vm_compute in Hp. intuition congruence.
  - apply (proj1 (CheckBlock_spec {| fEnabled := false; NetworkID := MAIN; clock := 0 |} 6143 1)).
    reflexivity.
Defined.

(** ** GetTotalBlocksEstimate *)

(** C7. With checkpoints disabled GetTotalBlocksEstimate returns 0. With
    checkpoints enabled it returns a height of the active table that no
    other height of the table exceeds; on the Main network that is
    1066428. *)
Theorem GetTotalBlocksEstimate_spec (env : Env) :
  let table := mapCheckpoints (Checkpoints (D := float) env) in
  (fEnabled env = false -> GetTotalBlocksEstimate env = Some 0) /\
  (fEnabled env = true ->
   exists h, GetTotalBlocksEstimate env = Some h /\
     (exists hash, In (h, hash) table) /\
     (forall k hash, In (k, hash) table -> k <= h)) /\
  (fEnabled env = true -> NetworkID env = MAIN ->
   GetTotalBlocksEstimate env = Some 1066428).
Proof.
  intros table. unfold GetTotalBlocksEstimate. fold table. split; [|split].
  - intros ->. reflexivity.
  - intros ->. cbn [negb].
    destruct (StdMap.rbegin table) as [[h hash]|] eqn:E.
    + exists h. split; [reflexivity|].
      destruct (StdMapFacts.rbegin_max table (h, hash) (table_sorted env) E)
        as [Hin Hmax].
      split; [exists hash; exact Hin|].
      intros k hash' Hk. exact (Hmax (k, hash') Hk).
    + exfalso. revert E. subst table.
      destruct (Checkpoints_cases (D := float) env)
        as [[_ ->] | [[_ ->] | (_ & _ & ->)]]; discriminate.
  - intros -> Hmain. cbn [negb]. subst table.
    rewrite (Checkpoints_MAIN env Hmain). reflexivity.
Qed.

Lemma GetTotalBlocksEstimate_spec_witness :
  GetTotalBlocksEstimate {| fEnabled := false; NetworkID := MAIN; clock := 0 |} = Some 0 /\
  GetTotalBlocksEstimate {| fEnabled := true; NetworkID := MAIN; clock := 0 |} = Some 1066428.
Proof.
  split.
  - apply (proj1 (GetTotalBlocksEstimate_spec
                    {| fEnabled := false; NetworkID := MAIN; clock := 0 |})).
    reflexivity.
  - apply (proj2 (proj2 (GetTotalBlocksEstimate_spec
                    {| fEnabled := true; NetworkID := MAIN; clock := 0 |})));
      reflexivity.
Defined.

(** C10. Each of the three tables has an entry at height 0, hence is not
    empty; so with checkpoints enabled, whatever the network identifier, the
    table's last element exists and GetTotalBlocksEstimate returns its
    height. *)
Theorem tables_nonempty :
  (exists hash, In (0, hash) mapCheckpoints_main) /\
  (exists hash, In (0, hash) mapCheckpointsTestnet) /\
  (exists hash, In (0, hash) mapCheckpointsRegtest) /\
  (forall env, fEnabled env = true ->
   exists last,
     StdMap.rbegin (mapCheckpoints (Checkpoints (D := float) env)) = Some last /\
     GetTotalBlocksEstimate env = Some (fst last)).
Proof.
  split; [|split; [|split]].
  - eexists. left. reflexivity.
  - eexists. left. reflexivity.
  - eexists. left. reflexivity.
  - intros env Hen. unfold GetTotalBlocksEstimate. rewrite Hen. cbn [negb].
    destruct (Checkpoints_cases (D := float) env)
      as [[_ ->] | [[_ ->] | (_ & _ & ->)]];
      eexists; (split; [reflexivity|reflexivity]).
Qed.

Lemma tables_nonempty_witness :
  exists last,
    StdMap.rbegin (mapCheckpoints (Checkpoints (D := float)
       {| fEnabled := true; NetworkID := REGTEST; clock := 0 |})) = Some last /\
    GetTotalBlocksEstimate {| fEnabled := true; NetworkID := REGTEST; clock := 0 |}
      = Some (fst last).
Proof.
  apply (proj2 (proj2 (proj2 tables_nonempty))). reflexivity.
Defined.

(** ** GetLastCheckpoint *)

Lemma GetLastCheckpoint_loop_none todo (mapBlockIndex : gmap Z (option CBlockIndex)) :
  (forall i, In i todo -> mapBlockIndex !! snd i = None) ->
  GetLastCheckpoint_loop todo mapBlockIndex = None.
Proof.
  induction todo as [|i todo IH]; intros Hnone; [reflexivity|].
  cbn [GetLastCheckpoint_loop]. rewrite (Hnone i (or_introl eq_refl)).
  apply IH. intros j Hj. apply Hnone. right. exact Hj.
Qed.

Lemma GetLastCheckpoint_loop_first skipped i rest
    (mapBlockIndex : gmap Z (option CBlockIndex)) t :
  (forall j, In j skipped -> mapBlockIndex !! snd j = None) ->
  mapBlockIndex !! snd i = Some t ->
  GetLastCheckpoint_loop (skipped ++ i :: rest) mapBlockIndex = t.
Proof.
  induction skipped as [|j skipped IH]; intros Hnone Hi.
  - cbn [app GetLastCheckpoint_loop]. rewrite Hi. reflexivity.
  - cbn [app GetLastCheckpoint_loop]. rewrite (Hnone j (or_introl eq_refl)).
    apply IH; [|exact Hi]. intros k Hk. apply Hnone. right. exact Hk.
Qed.

(** C4. With checkpoints disabled GetLastCheckpoint returns NULL. With
    checkpoints enabled it visits the active table in strictly descending
    order of height; it returns NULL when no hash of the table is in the
    directory, and otherwise what the directory stores for the hash of the
    highest height whose hash is in the directory. On the Main network, for a
    directory that has, of the table's hashes, exactly those of heights 0 and
    12797, this is the directory's entry for height 12797. *)
Theorem GetLastCheckpoint_spec (env : Env)
    (mapBlockIndex : gmap Z (option CBlockIndex)) :
  let table := mapCheckpoints (Checkpoints (D := float) env) in
  (fEnabled env = false -> GetLastCheckpoint env mapBlockIndex = None) /\
  (fEnabled env = true ->
   StronglySorted StdMap.after (StdMap.reverse_order table) /\
   GetLastCheckpoint env mapBlockIndex =
     GetLastCheckpoint_loop (StdMap.reverse_order table) mapBlockIndex /\
   ((forall h hash, In (h, hash) table -> mapBlockIndex !! hash = None) ->
    GetLastCheckpoint env mapBlockIndex = None) /\
   (forall h hash t,
      In (h, hash) table -> mapBlockIndex !! hash = Some t ->
      (forall h' hash', In (h', hash') table ->
         is_Some (mapBlockIndex !! hash') -> h' <= h) ->
      GetLastCheckpoint env mapBlockIndex = t)) /\
  (fEnabled env = true -> NetworkID env = MAIN ->
   (forall h hash, In (h, hash) table ->
      (is_Some (mapBlockIndex !! hash) <-> h = 0 \/ h = 12797)) ->
   exists hash t,
     In (12797, hash) table /\ mapBlockIndex !! hash = Some t /\
     GetLastCheckpoint env mapBlockIndex = t).
Proof.
  intros table.
  assert (Hdesc : StronglySorted StdMap.after (StdMap.reverse_order table)).
  { apply StdMapFacts.reverse_order_descending, table_sorted. }
  assert (Hhigh : fEnabled env = true -> forall h hash t,
    In (h, hash) table -> mapBlockIndex !! hash = Some t ->
    (forall h' hash', In (h', hash') table ->
       is_Some (mapBlockIndex !! hash') -> h' <= h) ->
    GetLastCheckpoint env mapBlockIndex = t).
  { intros Hen h hash t Hin Ht Hmax. unfold GetLastCheckpoint. rewrite Hen.
    cbn [negb]. fold table.
    assert (Hrev : In (h, hash) (StdMap.reverse_order table)).
    { unfold StdMap.reverse_order. apply in_rev. rewrite rev_involutive. exact Hin. }
    apply in_split in Hrev as (skipped & rest & Hsplit).
    rewrite Hsplit in Hdesc |- *.
    apply GetLastCheckpoint_loop_first; [|exact Ht].
    intros [h' hash'] Hj. cbn [snd].
    destruct (mapBlockIndex !! hash') as [t'|] eqn:E; [exfalso|reflexivity].
    apply StronglySorted_app in Hdesc as (Hcross & _ & _).
    specialize (Hcross (h', hash') (h, hash)).
    unfold StdMap.after in Hcross. cbn [fst] in Hcross.
    assert (h < h').
    { apply Hcross; [apply list_elem_of_In; exact Hj|apply list_elem_of_here]. }
    assert (h' <= h); [|lia].
    apply (Hmax h' hash'); [|rewrite E; eexists; reflexivity].
    apply in_rev. fold (StdMap.reverse_order table). rewrite Hsplit.
    apply in_or_app. left. exact Hj. }
  split; [|split].
  - unfold GetLastCheckpoint. intros ->. reflexivity.
  - intros Hen. split; [exact Hdesc|]. split; [|split].
    + unfold GetLastCheckpoint. rewrite Hen. reflexivity.
    + intros Hnone. unfold GetLastCheckpoint. rewrite Hen. cbn [negb]. fold table.
      apply GetLastCheckpoint_loop_none. intros [h hash] Hi. cbn [snd].
      apply (Hnone h). apply in_rev. exact Hi.
    + exact (Hhigh Hen).
  - intros Hen Hmain Hdir.
    assert (Et : table = mapCheckpoints_main).
    { subst table. rewrite (Checkpoints_MAIN env Hmain). reflexivity. }
    assert (Hin : In (12797,
      0x000000002c29644e179baa188fa6b9b9454721f1f21f2b9f31eebe9acc1a31db) table).
    { rewrite Et. right; right; left. reflexivity. }
    destruct (proj2 (Hdir _ _ Hin) (or_intror eq_refl)) as [t Ht].
    eexists _, t. split; [exact Hin|]. split; [exact Ht|].
    apply (Hhigh Hen _ _ _ Hin Ht).
    intros h' hash' Hin' Hsome. apply (Hdir _ _ Hin') in Hsome. lia.
Qed.

Lemma GetLastCheckpoint_spec_witness :
  let genesis := {| nChainTx := 1; nTime := 1390000000 |} in
  let later := {| nChainTx := 20000; nTime := 1391000000 |} in
  GetLastCheckpoint {| fEnabled := true; NetworkID := MAIN; clock := 0 |}
    (<[0x00000f639db5734b2b861ef8dbccc33aebd7de44d13de000a12d093bcc866c64 := Some genesis]>
     (<[0x000000002c29644e179baa188fa6b9b9454721f1f21f2b9f31eebe9acc1a31db := Some later]> ∅))
  = Some later.
Proof.
  intros genesis later.
  set (env := {| fEnabled := true; NetworkID := MAIN; clock := 0 |}).
  set (dir := <[_ := _]> _).
  destruct (proj2 (proj2 (GetLastCheckpoint_spec env dir)) eq_refl eq_refl)
    as (hash & t & Hin & Ht & ->).
  - intros h hash Hin. vm_compute in Hin.
    repeat (destruct Hin as [[= <- <-] | Hin];
      [ unfold is_Some; vm_compute;
        (split; [intros _; lia | intros _; eexists; reflexivity]) ||
        (split; [intros [? [=]] | intros [[=]|[=]]]) |]).
    destruct Hin.
  - vm_compute in Hin.
    repeat (destruct Hin as [E | Hin]; [try discriminate E|]); [|destruct Hin].
    injection E as <-. vm_compute in Ht. injection Ht as <-. reflexivity.
Defined.

(** ** GuessVerificationProgress *)

(** C8. For a NULL block index GuessVerificationProgress returns exactly
    0.0 (positive zero), whatever the flag, the network, the clock and
    fSigchecks. *)
Theorem GuessVerificationProgress_NULL (env : Env) (fSigchecks : bool) :
  GuessVerificationProgress (D := float) env None fSigchecks = 0%float.
Proof. reflexivity. Qed.

(** The three profiles' numbers fit their types with room to spare. *)
Lemma profile_bounds {D} `{Arith D} (env : Env) :
  0 <= nTransactionsLastCheckpoint (Checkpoints env) < 2 ^ 31 /\
  0 <= nTimeLastCheckpoint (Checkpoints env) < 2 ^ 32.
Proof.
  destruct (Checkpoints_cases env) as [[_ ->] | [[_ ->] | (_ & _ & ->)]];
    cbn [nTransactionsLastCheckpoint nTimeLastCheckpoint data dataTestnet dataRegtest];
    lia.
Qed.

(** On well-formed inputs the machine integers of GuessVerificationProgress
    do not wrap: the unsigned comparison and the differences are those of
    the integers of mathematics. *)
Lemma GuessVerificationProgress_no_wrap {D : Type} `{Arith D}
    (env : Env) (pindex : CBlockIndex) (fSigchecks : bool) :
  wf_Env env -> wf_CBlockIndex pindex ->
  let Tc := nTransactionsLastCheckpoint (Checkpoints env) in
  let tc := nTimeLastCheckpoint (Checkpoints env) in
  let R := fTransactionsPerDay (Checkpoints env) in
  let F := if fSigchecks then of_int 5 else of_int 1 in
  GuessVerificationProgress env (Some pindex) fSigchecks =
  let '(fWorkBefore, fWorkAfter) :=
    if nChainTx pindex <=? Tc then
      (of_int (nChainTx pindex),
       fadd (of_int (Tc - nChainTx pindex))
            (fmul (fmul (fdiv (of_int (clock env - tc)) (of_int 86400)) R) F))
    else
      (fadd (of_int Tc) (fmul (of_int (nChainTx pindex - Tc)) F),
       fmul (fmul (fdiv (of_int (clock env - nTime pindex)) (of_int 86400)) R) F)
  in fdiv fWorkBefore (fadd fWorkBefore fWorkAfter).
Proof.
  intros Henv [Htx Htime] Tc tc R F.
  destruct (profile_bounds env) as [HTc Htc]. fold Tc tc in HTc, Htc.
  unfold wf_Env in Henv. unfold Int.in_unsigned in Htx, Htime.
  unfold GuessVerificationProgress, SIGCHECK_VERIFICATION_FACTOR.
  fold Tc tc R F.
  rewrite (IntFacts.u64_of_i64_id Tc) by lia.
  rewrite (IntFacts.sub_i64_id (clock env) tc) by lia.
  rewrite (IntFacts.sub_i64_id (clock env) (nTime pindex)) by lia.
  destruct (nChainTx pindex <=? Tc) eqn:E.
  - apply Z.leb_le in E. rewrite IntFacts.sub_u64_id by lia. reflexivity.
  - apply Z.leb_gt in E. rewrite IntFacts.sub_u64_id by lia. reflexivity.
Qed.

(** Hence the function is the formula of the specification. *)
Lemma GuessVerificationProgress_unfold {D : Type} `{Arith D}
    (env : Env) (pindex : CBlockIndex) (fSigchecks : bool) :
  wf_Env env -> wf_CBlockIndex pindex ->
  GuessVerificationProgress env (Some pindex) fSigchecks =
  spec_progress (nTransactionsLastCheckpoint (Checkpoints env))
                (nTimeLastCheckpoint (Checkpoints env))
                (fTransactionsPerDay (Checkpoints env))
                (clock env) (nChainTx pindex) (nTime pindex) fSigchecks.
Proof.
  intros Henv Hp.
  rewrite (GuessVerificationProgress_no_wrap env pindex fSigchecks Henv Hp).
  unfold spec_progress. cbv zeta.
  destruct (nChainTx pindex <=? nTransactionsLastCheckpoint (Checkpoints env));
    reflexivity.
Qed.

(** ** Exact arithmetic *)

Module ExactFacts.
Import ExactModel.
Local Open Scope Q_scope.

Lemma spec_progress_exact Tc tc R now txCount refTime fastMode :
  spec_progress (D := exact) Tc tc (Exact R) now txCount refTime fastMode =
  exact_div (Exact (work_before Tc txCount fastMode))
    (Exact (work_before Tc txCount fastMode +
            work_after Tc tc R now txCount refTime fastMode)).
Proof.
  unfold spec_progress, work_before, work_after, factor.
  destruct (txCount <=? Tc)%Z, fastMode; reflexivity.
Qed.

Lemma exact_div_defined a b : 0 < b -> exact_div (Exact a) (Exact b) = Exact (a / b).
Proof.
  intros Hb. unfold exact_div.
  destruct (Qeq_bool b 0) eqn:E; [|reflexivity].
  apply Qeq_bool_eq in E. rewrite E in Hb. exfalso. exact (Qlt_irrefl 0 Hb).
Qed.

Lemma Qdiv_le_cross a b c d : 0 < c -> 0 < d -> a * d <= b * c -> a / c <= b / d.
Proof.
  intros Hc Hd Hcross. apply Qle_shift_div_l; [exact Hd|].
  assert (E : a / c * d == (a * d) / c) by (field; lra). rewrite E.
  apply Qle_shift_div_r; [exact Hc|exact Hcross].
Qed.


Lemma fraction_unit wb wa :
  0 <= wb -> 0 <= wa -> 0 < wb + wa -> 0 <= wb / (wb + wa) <= 1.
Proof.
  intros H1 H2 H3. split.
  - apply Qle_shift_div_l; [exact H3|]. lra.
  - apply Qle_shift_div_r; [exact H3|]. lra.
Qed.

Lemma inject_Z_le a b : (a <= b)%Z -> inject_Z a <= inject_Z b.
Proof. intros Hab. rewrite <- Zle_Qle. exact Hab. Qed.

Lemma inject_Z_lt a b : (a < b)%Z -> inject_Z a < inject_Z b.
Proof. intros Hab. rewrite <- Zlt_Qlt. exact Hab. Qed.

Lemma factor_pos fastMode : 1 <= factor fastMode.
Proof. destruct fastMode; unfold factor; apply (inject_Z_le _ _); lia. Qed.

Lemma days_nonneg (n : Z) : (0 <= n)%Z -> 0 <= inject_Z n / inject_Z 86400.
Proof.
  intros Hn. apply Qle_shift_div_l; [reflexivity|].
  rewrite Qmult_0_l. apply (inject_Z_le 0 n). exact Hn.
Qed.

Lemma days_pos (n : Z) : (0 < n)%Z -> 0 < inject_Z n / inject_Z 86400.
Proof.
  intros Hn. apply Qlt_shift_div_l; [reflexivity|].
  rewrite Qmult_0_l. apply (inject_Z_lt 0 n). exact Hn.
Qed.


Lemma inject_Z_sub a b : inject_Z (a - b) == inject_Z a - inject_Z b.
Proof. unfold Z.sub. rewrite inject_Z_plus, inject_Z_opp. reflexivity. Qed.

Lemma term_nonneg d R F : 0 <= d -> 0 <= R -> 1 <= F -> 0 <= d * R * F.
Proof.
  intros Hd HR HF. apply Qmult_le_0_compat; [apply Qmult_le_0_compat; assumption|lra].
Qed.

Lemma term_pos d R F : 0 < d -> 0 < R -> 1 <= F -> 0 < d * R * F.
Proof.
  intros Hd HR HF. assert (0 < d * R) by nra. nra.
Qed.


Section Work.
Variables (Tc tc : Z) (R : Q) (now : Z) (fastMode : bool).
Hypothesis HTc : (0 <= Tc)%Z.
Hypothesis HR : 0 <= R.

Lemma work_before_nonneg x : (0 <= x)%Z -> 0 <= work_before Tc x fastMode.
Proof.
  intros Hx. unfold work_before. pose proof (factor_pos fastMode) as HF.
  destruct (x <=? Tc)%Z eqn:E.
  - apply (inject_Z_le 0 x). exact Hx.
  - apply Z.leb_gt in E.
    assert (0 <= inject_Z Tc) by (apply (inject_Z_le 0 Tc); exact HTc).
    assert (0 <= inject_Z (x - Tc)) by (apply (inject_Z_le 0 _); lia).
    nra.
Qed.


Lemma work_after_nonneg x t :
  (x <= Tc -> tc <= now)%Z -> (Tc < x -> t <= now)%Z ->
  0 <= work_after Tc tc R now x t fastMode.
Proof.
  intros HA HB. unfold work_after. pose proof (factor_pos fastMode) as HF.
  destruct (x <=? Tc)%Z eqn:E.
  - apply Z.leb_le in E.
    assert (0 <= inject_Z (Tc - x)) by (apply (inject_Z_le 0 _); lia).
    assert (0 <= inject_Z (now - tc) / inject_Z 86400 * R * factor fastMode)
      by (apply term_nonneg; [apply days_nonneg; lia|exact HR|exact HF]).
    lra.
  - apply Z.leb_gt in E.
    apply term_nonneg; [apply days_nonneg; lia|exact HR|exact HF].
Qed.

Lemma denominator_pos x t :
  (0 <= x)%Z ->
  ((x <= Tc)%Z -> (tc <= now)%Z /\ ((0 < Tc)%Z \/ ((tc < now)%Z /\ 0 < R))) ->
  (Tc < x -> t <= now)%Z ->
  0 < work_before Tc x fastMode + work_after Tc tc R now x t fastMode.
Proof.
  intros Hx HA HB. unfold work_before, work_after.
  pose proof (factor_pos fastMode) as HF.
  destruct (x <=? Tc)%Z eqn:E.
  - apply Z.leb_le in E. destruct (HA E) as [Hnow Hpos].
    pose proof (inject_Z_sub Tc x) as Es.
    destruct Hpos as [HT | [Hlt HRpos]].
    + assert (0 < inject_Z Tc) by (apply (inject_Z_lt 0 _); lia).
      assert (0 <= inject_Z (now - tc) / inject_Z 86400 * R * factor fastMode)
        by (apply term_nonneg; [apply days_nonneg; lia|exact HR|exact HF]).
      lra.
    + assert (0 <= inject_Z Tc) by (apply (inject_Z_le 0 _); lia).
      assert (0 < inject_Z (now - tc) / inject_Z 86400 * R * factor fastMode)
        by (apply term_pos; [apply days_pos; lia|exact HRpos|exact HF]).
      lra.
  - apply Z.leb_gt in E.
    assert (0 <= inject_Z Tc) by (apply (inject_Z_le 0 _); lia).
    assert (1 <= inject_Z (x - Tc)) by (apply (inject_Z_le 1 _); lia).
    assert (0 <= inject_Z (now - t) / inject_Z 86400 * R * factor fastMode)
      by (apply term_nonneg; [apply days_nonneg; lia|exact HR|exact HF]).
    nra.
Qed.

End Work.
End ExactFacts.

(** Well-formedness of a concrete environment or block index. *)
Ltac well_formed :=
  unfold wf_Env, wf_CBlockIndex, Int.in_unsigned; cbn [clock nChainTx nTime]; lia.

(** C2. For a present block index whose members fit their types, and a
    clock value from which times can be subtracted without overflow,
    GuessVerificationProgress computes the formula of the specification:
    with F = 5.0 or 1.0, Case A (txCount <= Tc) has workBefore = txCount and
    workAfter = (Tc - txCount) + ((now - tc)/86400 * R)*F, Case B has
    workBefore = Tc + (txCount - Tc)*F and
    workAfter = (now - refTime)/86400 * R * F, and the result is
    workBefore / (workBefore + workAfter). This holds in every arithmetic,
    in particular in the binary64 arithmetic of the machine. *)
Theorem GuessVerificationProgress_formula {D : Type} `{Arith D}
    (env : Env) (pindex : CBlockIndex) (fSigchecks : bool) :
  wf_Env env -> wf_CBlockIndex pindex ->
  GuessVerificationProgress env (Some pindex) fSigchecks =
  spec_progress (nTransactionsLastCheckpoint (Checkpoints env))
                (nTimeLastCheckpoint (Checkpoints env))
                (fTransactionsPerDay (Checkpoints env))
                (clock env) (nChainTx pindex) (nTime pindex) fSigchecks.
Proof.
  intros Henv Hp.
  rewrite (GuessVerificationProgress_no_wrap env pindex fSigchecks Henv Hp).
  unfold spec_progress. cbv zeta.
  destruct (nChainTx pindex <=? nTransactionsLastCheckpoint (Checkpoints env)) eqn:Case.
  - (* Case A *) reflexivity.
  - (* Case B *) reflexivity.
Qed.

Lemma GuessVerificationProgress_formula_witness :
  GuessVerificationProgress (D := float)
    {| fEnabled := true; NetworkID := MAIN; clock := 1500000000 |}
    (Some {| nChainTx := 1200000; nTime := 1495000000 |}) true =
  spec_progress 1179921 1490629503 960%float 1500000000 1200000 1495000000 true.
Proof.
  refine (GuessVerificationProgress_formula (D := float)
            {| fEnabled := true; NetworkID := MAIN; clock := 1500000000 |}
            {| nChainTx := 1200000; nTime := 1495000000 |} true _ _).
  - well_formed.
  - well_formed.
Defined.

(** ** The ideal value of the result, and where the result decreases *)

Import ExactModel.

(** In exact arithmetic the function is the quotient of the two amounts of
    work. *)
Lemma GuessVerificationProgress_exact (env : Env) (pindex : CBlockIndex)
    (fSigchecks : bool) (r : Q) :
  let profile := Checkpoints (D := exact) env in
  wf_Env env -> wf_CBlockIndex pindex ->
  fTransactionsPerDay profile = Exact r ->
  GuessVerificationProgress env (Some pindex) fSigchecks =
  exact_div
    (Exact (work_before (nTransactionsLastCheckpoint profile) (nChainTx pindex) fSigchecks))
    (Exact (work_before (nTransactionsLastCheckpoint profile) (nChainTx pindex) fSigchecks +
            work_after (nTransactionsLastCheckpoint profile) (nTimeLastCheckpoint profile)
              r (clock env) (nChainTx pindex) (nTime pindex) fSigchecks)).
Proof.
  intros profile Henv Hp Hr.
  rewrite (GuessVerificationProgress_unfold env pindex fSigchecks Henv Hp).
  fold profile. rewrite Hr. apply ExactFacts.spec_progress_exact.
Qed.


(** The clock is not the only way: with the clock one hour after the last
    checkpoint's time, a block index just past the checkpoint whose time
    is ten minutes before the checkpoint's has less progress than one at
    the checkpoint with the same time. *)
Lemma GuessVerificationProgress_decreases_past_checkpoint :
  let env := {| fEnabled := true; NetworkID := MAIN; clock := 1490633103 |} in
  let p1 := {| nChainTx := 1179921; nTime := 1490628903 |} in
  let p2 := {| nChainTx := 1179922; nTime := 1490628903 |} in
  PrimFloat.ltb (GuessVerificationProgress env (Some p2) false)
                (GuessVerificationProgress env (Some p1) false) = true.
Proof. vm_compute. reflexivity. Qed.

(** And with a block time after the clock, the estimated work left is
    negative and more transactions mean less progress. *)
Lemma GuessVerificationProgress_decreases_future_block :
  let env := {| fEnabled := true; NetworkID := MAIN; clock := 1490633103 |} in
  let p1 := {| nChainTx := 1179922; nTime := 1490719503 |} in
  let p2 := {| nChainTx := 1179923; nTime := 1490719503 |} in
  PrimFloat.ltb (GuessVerificationProgress env (Some p2) false)
                (GuessVerificationProgress env (Some p1) false) = true.
Proof. vm_compute. reflexivity. Qed.

(** Nor is the order of the block times free: past the checkpoint, a block
    index with more transactions but an earlier time has less progress. *)
Lemma GuessVerificationProgress_decreases_earlier_time :
  let env := {| fEnabled := true; NetworkID := MAIN; clock := 1500000000 |} in
  let p1 := {| nChainTx := 1200000; nTime := 1499999000 |} in
  let p2 := {| nChainTx := 1200001; nTime := 1495000000 |} in
  PrimFloat.ltb (GuessVerificationProgress env (Some p2) false)
                (GuessVerificationProgress env (Some p1) false) = true.
Proof. vm_compute. reflexivity. Qed.

(** Rounding alone can reverse the order of two binary64 results whose
    exact values are ordered: Testnet, times in order, very large counts. *)
Lemma GuessVerificationProgress_rounding :
  let env := {| fEnabled := true; NetworkID := TESTNET; clock := 1500000000 |} in
  let p1 := {| nChainTx := 2 ^ 62 + 1024; nTime := 1499308800 |} in
  let p2 := {| nChainTx := 2 ^ 62 + 2048; nTime := 1499308800 |} in
  PrimFloat.ltb (GuessVerificationProgress env (Some p2) false)
                (GuessVerificationProgress env (Some p1) false) = true /\
  exists q1 q2,
    GuessVerificationProgress (D := exact) env (Some p1) false = Exact q1 /\
    GuessVerificationProgress (D := exact) env (Some p2) false = Exact q2 /\
    (q1 < q2)%Q.
Proof.
  cbv zeta. split; [vm_compute; reflexivity|].
  eexists _, _. split; [vm_compute; reflexivity|].
  split; [vm_compute; reflexivity|]. vm_compute. reflexivity.
Qed.

(** The same on the Main network, with counts of ordinary size: one more
    transaction, same block time six seconds before the clock, and the
    binary64 result is smaller. *)
Lemma GuessVerificationProgress_rounding_main :
  let env := {| fEnabled := true; NetworkID := MAIN; clock := 1500000000 |} in
  let p1 := {| nChainTx := 33554431; nTime := 1499999994 |} in
  let p2 := {| nChainTx := 33554432; nTime := 1499999994 |} in
  PrimFloat.ltb (GuessVerificationProgress env (Some p2) false)
                (GuessVerificationProgress env (Some p1) false) = true.
Proof. vm_compute. reflexivity. Qed.

(** ** GuessVerificationProgress in binary64 arithmetic *)

(** The result of GuessVerificationProgress is followed through the
    specification of binary64 ([SpecFloat]), to which the primitive
    operations are tied by the axioms of [FloatAxioms]. Values are never
    turned into reals: a positive number is its mantissa and exponent, and
    numbers in canonical form compare by exponent first. *)
Module Binary64Facts.
Import Binary64.

(** *** Exponents and numbers of digits *)

Lemma fexp_eq z : fexp z = Z.max (z - 53) (-1074).
Proof. reflexivity. Qed.

Lemma fexp_le a b : a <= b -> fexp a <= fexp b.
Proof. rewrite !fexp_eq. lia. Qed.

Lemma Zdigits2_log2 z : 0 < z -> Zdigits2 z = Z.log2 z + 1.
Proof.
  destruct z as [|p|p]; try lia. intros _. cbn [Zdigits2].
  assert (E : forall q, Z.pos (digits2_pos q) = Z.pos (Pos.size q)).
  { induction q as [q IH|q IH|]; cbn [digits2_pos Pos.size]; [| |reflexivity];
      rewrite !Pos2Z.inj_succ, IH; reflexivity. }
  rewrite E. destruct p as [p|p|]; cbn [Z.log2 Pos.size]; lia.
Qed.

Lemma Zdigits2_nonneg z : 0 <= Zdigits2 z.
Proof. destruct z; cbn; lia. Qed.

Lemma Zdigits2_pos z : 0 < z -> 0 < Zdigits2 z.
Proof. destruct z; cbn; lia. Qed.

Lemma Zdigits2_bounds z : 0 < z -> 2 ^ (Zdigits2 z - 1) <= z < 2 ^ Zdigits2 z.
Proof.
  intros Hz. rewrite (Zdigits2_log2 z Hz).
  replace (Z.log2 z + 1 - 1) with (Z.log2 z) by lia.
  replace (Z.log2 z + 1) with (Z.succ (Z.log2 z)) by lia.
  apply Z.log2_spec. exact Hz.
Qed.

Lemma Zdigits2_le a b : 0 <= a <= b -> Zdigits2 a <= Zdigits2 b.
Proof.
  intros [Ha Hab]. destruct (Z.eq_dec a 0) as [->|Hne].
  - apply Zdigits2_nonneg.
  - rewrite !Zdigits2_log2 by lia. pose proof (Z.log2_le_mono a b Hab). lia.
Qed.

Lemma Zdigits2_lt_pow z k : 0 <= k -> 0 <= z < 2 ^ k -> Zdigits2 z <= k.
Proof.
  intros Hk [Hz Hlt]. destruct (Z.eq_dec z 0) as [->|Hne]; [exact Hk|].
  rewrite Zdigits2_log2 by lia.
  assert (Z.log2 z < k) by (apply Z.log2_lt_pow2; lia). lia.
Qed.

Lemma Zdigits2_le_pow z k : 0 <= k -> 0 <= z <= 2 ^ k -> Zdigits2 z <= k + 1.
Proof.
  intros Hk [Hz Hle]. apply Zdigits2_lt_pow; [lia|].
  rewrite Z.pow_add_r by lia. change (2 ^ 1) with 2. lia.
Qed.

Lemma Zdigits2_mul_pow2 z k : 0 < z -> 0 <= k -> Zdigits2 (z * 2 ^ k) = Zdigits2 z + k.
Proof.
  intros Hz Hk. assert (0 < 2 ^ k) by (apply Z.pow_pos_nonneg; lia).
  rewrite !Zdigits2_log2 by nia. rewrite Z.log2_mul_pow2 by lia. lia.
Qed.

Lemma Zdigits2_div_pow2 z k : 0 <= z -> 0 <= k -> k < Zdigits2 z ->
  Zdigits2 (z / 2 ^ k) = Zdigits2 z - k.
Proof.
  intros Hz Hk Hlt. assert (Hz0 : 0 < z) by (destruct z; cbn in Hlt; lia).
  pose proof (Zdigits2_bounds z Hz0) as [Hlo Hhi].
  assert (Hp : 0 < 2 ^ k) by (apply Z.pow_pos_nonneg; lia).
  assert (Hq : 2 ^ (Zdigits2 z - 1 - k) <= z / 2 ^ k).
  { apply Z.div_le_lower_bound; [exact Hp|].
    rewrite <- Z.pow_add_r by lia. replace (k + (Zdigits2 z - 1 - k)) with (Zdigits2 z - 1) by lia.
    exact Hlo. }
  assert (Hq0 : 0 < z / 2 ^ k).
  { assert (0 < 2 ^ (Zdigits2 z - 1 - k)) by (apply Z.pow_pos_nonneg; lia). lia. }
  rewrite !Zdigits2_log2 by lia.
  rewrite <- Z.shiftr_div_pow2 by lia. rewrite Z.log2_shiftr by lia.
  rewrite Zdigits2_log2 in Hlt by lia. lia.
Qed.

(** *** Shifting right and rounding *)

Lemma shr_1_m mrs : 0 <= shr_m mrs -> shr_m (shr_1 mrs) = shr_m mrs / 2.
Proof.
  destruct mrs as [m r s]. cbn [shr_m shr_1]. intros Hm.
  destruct m as [|[p|p|]|p]; cbn [shr_m]; try lia.
  - reflexivity.
  - rewrite Pos2Z.inj_xI. apply Z.div_unique with 1; lia.
  - rewrite Pos2Z.inj_xO. apply Z.div_unique with 0; lia.
  - reflexivity.
Qed.

Lemma shr_1_nonneg mrs : 0 <= shr_m mrs -> 0 <= shr_m (shr_1 mrs).
Proof. intros H. rewrite shr_1_m by exact H. apply Z.div_pos; lia. Qed.

Lemma iter_shr_1_m p : forall mrs, 0 <= shr_m mrs ->
  shr_m (SpecFloat.iter_pos shr_1 p mrs) = shr_m mrs / 2 ^ Z.pos p.
Proof.
  induction p as [p IH|p IH|]; intros mrs Hm; cbn [SpecFloat.iter_pos].
  - assert (H1 : 0 <= shr_m (shr_1 mrs)) by (apply shr_1_nonneg; exact Hm).
    assert (H2 : 0 <= shr_m (SpecFloat.iter_pos shr_1 p (shr_1 mrs))).
    { rewrite IH by exact H1. apply Z.div_pos; [exact H1|]. apply Z.pow_pos_nonneg; lia. }
    rewrite IH by exact H2. rewrite IH by exact H1. rewrite shr_1_m by exact Hm.
    rewrite !Z.div_div by (try (apply Z.pow_pos_nonneg); lia).
    f_equal. replace (Z.pos p~1) with (1 + Z.pos p + Z.pos p) by lia.
    rewrite !Z.pow_add_r by lia. change (2 ^ 1) with 2. lia.
  - assert (H2 : 0 <= shr_m (SpecFloat.iter_pos shr_1 p mrs)).
    { rewrite IH by exact Hm. apply Z.div_pos; [exact Hm|]. apply Z.pow_pos_nonneg; lia. }
    rewrite IH by exact H2. rewrite IH by exact Hm.
    rewrite !Z.div_div by (try (apply Z.pow_pos_nonneg); lia).
    f_equal. replace (Z.pos p~0) with (Z.pos p + Z.pos p) by lia.
    rewrite !Z.pow_add_r by lia. lia.
  - rewrite shr_1_m by exact Hm. reflexivity.
Qed.

Lemma shr_spec mrs e n : 0 <= shr_m mrs ->
  shr_m (fst (shr mrs e n)) = shr_m mrs / 2 ^ Z.max n 0 /\
  snd (shr mrs e n) = e + Z.max n 0.
Proof.
  intros Hm. destruct n as [|p|p]; cbn [shr fst snd].
  - cbn. rewrite Z.div_1_r. lia.
  - rewrite iter_shr_1_m by exact Hm. rewrite Z.max_l by lia. lia.
  - rewrite Z.max_r by lia. cbn. rewrite Z.div_1_r. lia.
Qed.

Lemma shr_record_of_loc_m m l : shr_m (shr_record_of_loc m l) = m.
Proof. destruct l as [|[| |]]; reflexivity. Qed.

Lemma shr_fexp_spec m e l : 0 <= m ->
  let n := Z.max (fexp (Zdigits2 m + e) - e) 0 in
  shr_m (fst (shr_fexp prec emax m e l)) = m / 2 ^ n /\
  snd (shr_fexp prec emax m e l) = e + n.
Proof.
  intros Hm n. unfold shr_fexp.
  pose proof (shr_spec (shr_record_of_loc m l) e (fexp (Zdigits2 m + e) - e)) as H.
  rewrite shr_record_of_loc_m in H. apply H. exact Hm.
Qed.

Lemma round_nearest_even_bounds m l :
  m <= round_nearest_even m l <= m + 1.
Proof.
  unfold round_nearest_even. destruct l as [|[| |]]; try lia.
  destruct (Z.even m); lia.
Qed.

(** The result of rounding a non-negative mantissa. *)
Lemma binary_round_aux_spec sx m e l : 0 <= m ->
  exists m1 e1 mr mf ef,
    m1 = m / 2 ^ Z.max (fexp (Zdigits2 m + e) - e) 0 /\
    e1 = e + Z.max (fexp (Zdigits2 m + e) - e) 0 /\
    m1 <= mr <= m1 + 1 /\
    mf = mr / 2 ^ Z.max (fexp (Zdigits2 mr + e1) - e1) 0 /\
    ef = e1 + Z.max (fexp (Zdigits2 mr + e1) - e1) 0 /\
    binary_round_aux prec emax sx m e l =
      match mf with
      | Z0 => S754_zero sx
      | Zpos p => if ef <=? emax - prec then S754_finite sx p ef else S754_infinity sx
      | Zneg _ => S754_nan
      end.
Proof.
  intros Hm. unfold binary_round_aux.
  destruct (shr_fexp_spec m e l Hm) as [E1 E2].
  destruct (shr_fexp prec emax m e l) as [mrs' e'] eqn:S1. cbn [fst snd] in E1, E2.
  set (mr := round_nearest_even (shr_m mrs') (loc_of_shr_record mrs')).
  pose proof (round_nearest_even_bounds (shr_m mrs') (loc_of_shr_record mrs')) as Hr.
  fold mr in Hr.
  assert (Hm1 : 0 <= shr_m mrs').
  { rewrite E1. apply Z.div_pos; [exact Hm|]. apply Z.pow_pos_nonneg; lia. }
  assert (Hmr : 0 <= mr) by lia.
  destruct (shr_fexp_spec mr e' loc_Exact Hmr) as [E3 E4].
  destruct (shr_fexp prec emax mr e' loc_Exact) as [mrs'' e''] eqn:S2.
  cbn [fst snd] in E3, E4.
  exists (shr_m mrs'), e', mr, (shr_m mrs''), e''.
  repeat split; try assumption; try lia.
Qed.

(** *** Numbers in canonical form *)

Lemma valid_finite sx m e :
  valid_binary (S754_finite sx m e) = true ->
  e = fexp (Zdigits2 (Z.pos m) + e) /\ e <= 971.
Proof.
  cbn [SpecFloat.valid_binary]. unfold bounded, canonical_mantissa.
  intros H. apply andb_prop in H as [H1 H2].
  apply Z.eqb_eq in H1. apply Z.leb_le in H2. cbn [Zdigits2].
  split; [symmetry; exact H1|exact H2].
Qed.

Lemma valid_finite_bounds sx m e :
  valid_binary (S754_finite sx m e) = true ->
  -1074 <= e <= 971 /\ Zdigits2 (Z.pos m) <= 53 /\
  (-1074 < e -> Zdigits2 (Z.pos m) = 53).
Proof.
  intros H. apply valid_finite in H as [H1 H2]. rewrite fexp_eq in H1. lia.
Qed.



Lemma SFleb_pos m1 e1 m2 e2 :
  lex_le m1 e1 m2 e2 ->
  SFleb (S754_finite false m1 e1) (S754_finite false m2 e2) = true.
Proof.
  unfold lex_le, SFleb, SFcompare. intros [Hlt | [-> Hle]].
  - rewrite (proj2 (Z.compare_lt_iff e1 e2) Hlt). reflexivity.
  - rewrite Z.compare_refl. fold (Pos.compare m1 m2).
    destruct (Pos.compare m1 m2) eqn:E; try reflexivity.
    apply Pos.compare_gt_iff in E. lia.
Qed.

(** *** Division: a quotient of at most one *)

(** A quotient of mantissas below a power of two rounds to at most that
    power: the binary64 quotient of two positive numbers, the first below
    the second, is at most one. *)
Lemma round_below_one q e l :
  0 <= q < 2 ^ (- e) -> e <= -53 ->
  exists r, binary_round_aux prec emax false q e l = r /\
    SFleb (S754_zero false) r = true /\ SFleb r SFone = true.
Proof.
  intros [Hq0 Hq] He.
  destruct (binary_round_aux_spec false q e l Hq0)
    as (m1 & e1 & mr & mf & ef & Em1 & Ee1 & Hmr & Emf & Eef & ->).
  eexists. split; [reflexivity|].
  assert (Hd : Zdigits2 q <= - e) by (apply Zdigits2_lt_pow; lia).
  set (n := Z.max (fexp (Zdigits2 q + e) - e) 0) in *.
  assert (Hn : 0 <= n) by lia.
  assert (He1 : e1 <= -53). { rewrite Ee1. unfold n. rewrite fexp_eq. lia. }
  assert (Hm1 : 0 <= m1 < 2 ^ (- e1)).
  { subst m1. split; [apply Z.div_pos; [lia|apply Z.pow_pos_nonneg; lia]|].
    apply Z.div_lt_upper_bound; [apply Z.pow_pos_nonneg; lia|].
    rewrite <- Z.pow_add_r by lia. replace (n + - e1) with (- e) by lia. exact Hq. }
  assert (Hmr' : 0 <= mr <= 2 ^ (- e1)) by lia.
  assert (Hdr : Zdigits2 mr <= - e1 + 1) by (apply Zdigits2_le_pow; lia).
  set (n2 := Z.max (fexp (Zdigits2 mr + e1) - e1) 0) in *.
  assert (Hn2 : 0 <= n2) by lia.
  assert (Hef : ef <= -52). { rewrite Eef. unfold n2. rewrite fexp_eq. lia. }
  assert (Hmf : 0 <= mf <= 2 ^ (- ef)).
  { subst mf. split; [apply Z.div_pos; [lia|apply Z.pow_pos_nonneg; lia]|].
    apply Z.div_le_upper_bound; [apply Z.pow_pos_nonneg; lia|].
    rewrite <- Z.pow_add_r by lia. replace (n2 + - ef) with (- e1) by lia. lia. }
  destruct mf as [|p|p]; [split; reflexivity| |lia].
  change (emax - prec) with 971. rewrite (proj2 (Z.leb_le ef 971)) by lia.
  split; [reflexivity|]. apply SFleb_pos. unfold lex_le.
  destruct (Z.eq_dec ef (-52)) as [->|Hne]; [right|left; lia].
  split; [reflexivity|]. change (2 ^ (- -52)) with 4503599627370496 in Hmf. lia.
Qed.

Lemma SFdiv_self m e :
  SFdiv prec emax (S754_finite false m e) (S754_finite false m e) = SFone.
Proof.
  unfold SFdiv, SFdiv_core_binary.
  replace (Zdigits2 (Z.pos m) + e - (Zdigits2 (Z.pos m) + e)) with 0 by lia.
  replace (e - e) with 0 by lia.
  change (Z.min (SpecFloat.fexp prec emax 0) 0) with (-53).
  change (0 - -53) with 53.
  rewrite Z.shiftl_mul_pow2 by lia.
  assert (E : Z.div_eucl (Z.pos m * 2 ^ 53) (Z.pos m) = (2 ^ 53, 0)).
  { pose proof (Z.div_eucl_eq (Z.pos m * 2 ^ 53) (Z.pos m) ltac:(lia)) as H.
    pose proof (Z.mod_pos_bound (Z.pos m * 2 ^ 53) (Z.pos m) ltac:(lia)) as Hb.
    unfold Z.modulo in Hb.
    destruct (Z.div_eucl (Z.pos m * 2 ^ 53) (Z.pos m)) as [q r].
    assert (q = 2 ^ 53) by nia. subst q. f_equal. lia. }
  rewrite E. unfold new_location, new_location_even, new_location_odd.
  destruct (Z.even (Z.pos m)); reflexivity.
Qed.

Lemma SFdiv_le_one m1 e1 m2 e2 :
  valid_binary (S754_finite false m1 e1) = true ->
  valid_binary (S754_finite false m2 e2) = true ->
  lex_le m1 e1 m2 e2 ->
  exists r, SFdiv prec emax (S754_finite false m1 e1) (S754_finite false m2 e2) = r /\
    SFleb (S754_zero false) r = true /\ SFleb r SFone = true.
Proof.
  intros V1 V2 Hle.
  destruct (Z.eq_dec e1 e2) as [Ee|Ne]; [destruct (Pos.eq_dec m1 m2) as [Em|Nm]|].
  - subst. rewrite SFdiv_self. eexists. split; [reflexivity|]. split; reflexivity.
  - (* same exponent, smaller mantissa *)
    subst e2. assert (Hm : Z.pos m1 < Z.pos m2).
    { destruct Hle as [?|[_ ?]]; [lia|]. assert (Z.pos m1 <> Z.pos m2) by congruence. lia. }
    unfold SFdiv, SFdiv_core_binary.
    set (d1 := Zdigits2 (Z.pos m1)). set (d2 := Zdigits2 (Z.pos m2)).
    assert (Hd : d1 <= d2) by (apply Zdigits2_le; lia).
    pose proof (Zdigits2_pos (Z.pos m1) ltac:(lia)) as Hd1. fold d1 in Hd1.
    pose proof (valid_finite_bounds _ _ _ V2) as (_ & Hd2 & _). fold d2 in Hd2.
    set (e' := Z.min (SpecFloat.fexp prec emax (d1 + e1 - (d2 + e1))) (e1 - e1)).
    assert (He' : e' = d1 - d2 - 53). { subst e'. rewrite fexp_eq. lia. }
    set (s := e1 - e1 - e').
    assert (Hs : s = - e') by (subst s; lia).
    assert (Hs0 : 0 < s) by lia.
    set (m' := match s with Z.pos _ => Z.shiftl (Z.pos m1) s | 0 => Z.pos m1 | Z.neg _ => 0 end).
    assert (Hm' : m' = Z.pos m1 * 2 ^ s).
    { subst m'. destruct s; try lia. apply Z.shiftl_mul_pow2. lia. }
    clearbody m'. subst m'.
    pose proof (Z.div_eucl_eq (Z.pos m1 * 2 ^ s) (Z.pos m2) ltac:(lia)) as Hdiv.
    pose proof (Z.mod_pos_bound (Z.pos m1 * 2 ^ s) (Z.pos m2) ltac:(lia)) as Hmod.
    unfold Z.modulo in Hmod.
    destruct (Z.div_eucl (Z.pos m1 * 2 ^ s) (Z.pos m2)) as [q r].
    apply round_below_one; [|lia].
    assert (Hp : 0 < 2 ^ s) by (apply Z.pow_pos_nonneg; lia).
    rewrite <- Hs. split; [nia|]. nia.
  - (* smaller exponent *)
    assert (He : e1 < e2) by (destruct Hle as [?|[? _]]; lia).
    unfold SFdiv, SFdiv_core_binary.
    set (d1 := Zdigits2 (Z.pos m1)). set (d2 := Zdigits2 (Z.pos m2)).
    pose proof (valid_finite_bounds _ _ _ V1) as (He1 & Hd1 & _). fold d1 in Hd1.
    pose proof (valid_finite_bounds _ _ _ V2) as (He2 & _ & Hd2). fold d2 in Hd2.
    assert (Ed2 : d2 = 53) by (apply Hd2; lia).
    pose proof (Zdigits2_bounds (Z.pos m2) ltac:(lia)) as [Hlo2 _]. fold d2 in Hlo2.
    rewrite Ed2 in Hlo2. change (2 ^ (53 - 1)) with 4503599627370496 in Hlo2.
    pose proof (Zdigits2_bounds (Z.pos m1) ltac:(lia)) as [_ Hhi1]. fold d1 in Hhi1.
    assert (Hm1 : Z.pos m1 < 2 ^ 53).
    { eapply Z.lt_le_trans; [exact Hhi1|]. apply Z.pow_le_mono_r; lia. }
    set (e' := Z.min (SpecFloat.fexp prec emax (d1 + e1 - (d2 + e2))) (e1 - e2)).
    assert (He' : e' <= -54 /\ e' <= e1 - e2). { subst e'. rewrite fexp_eq. lia. }
    set (s := e1 - e2 - e').
    assert (Hs0 : 0 <= s) by lia.
    set (m' := match s with Z.pos _ => Z.shiftl (Z.pos m1) s | 0 => Z.pos m1 | Z.neg _ => 0 end).
    assert (Hm' : m' = Z.pos m1 * 2 ^ s).
    { subst m'. destruct s; try lia. apply Z.shiftl_mul_pow2. lia. }
    clearbody m'. subst m'.
    pose proof (Z.div_eucl_eq (Z.pos m1 * 2 ^ s) (Z.pos m2) ltac:(lia)) as Hdiv.
    pose proof (Z.mod_pos_bound (Z.pos m1 * 2 ^ s) (Z.pos m2) ltac:(lia)) as Hmod.
    unfold Z.modulo in Hmod.
    destruct (Z.div_eucl (Z.pos m1 * 2 ^ s) (Z.pos m2)) as [q r].
    apply round_below_one; [|lia].
    assert (Hp : 0 < 2 ^ s) by (apply Z.pow_pos_nonneg; lia).
    assert (Hpow : 2 ^ (- e') = 2 ^ s * 2 ^ (e2 - e1)).
    { rewrite <- Z.pow_add_r by lia. f_equal. lia. }
    assert (Hk : 2 <= 2 ^ (e2 - e1)).
    { change 2 with (2 ^ 1) at 1. apply Z.pow_le_mono_r; lia. }
    rewrite Hpow. split; [nia|].
    assert (Z.pos m1 * 2 ^ s < 2 ^ s * 2 ^ (e2 - e1) * Z.pos m2); [|nia].
    assert (Z.pos m1 < 2 ^ (e2 - e1) * Z.pos m2) by nia. nia.
Qed.

(** *** Addition: the sum is not below its first term *)

(** Rounding a positive mantissa at an exponent not below the least one
    leaves a positive mantissa. *)
Lemma shift_positive m e :
  0 < m -> -1074 <= e ->
  0 < m / 2 ^ Z.max (fexp (Zdigits2 m + e) - e) 0.
Proof.
  intros Hm He. set (n := Z.max (fexp (Zdigits2 m + e) - e) 0).
  pose proof (Zdigits2_pos m Hm) as Hd.
  destruct (Z.eq_dec n 0) as [->|Hn].
  - change (2 ^ 0) with 1. rewrite Z.div_1_r. exact Hm.
  - assert (En : n = Zdigits2 m - 53).
    { subst n. rewrite fexp_eq in *. lia. }
    assert (Hdiv : Zdigits2 (m / 2 ^ n) = Zdigits2 m - n).
    { apply Zdigits2_div_pow2; lia. }
    assert (0 <= m / 2 ^ n) by (apply Z.div_pos; [lia|apply Z.pow_pos_nonneg; lia]).
    destruct (Z.eq_dec (m / 2 ^ n) 0) as [E0|]; [|lia].
    rewrite E0 in Hdiv. cbn [Zdigits2] in Hdiv. lia.
Qed.

Lemma binary_round_aux_pos sx m e l :
  0 < m -> -1074 <= e ->
  let E0 := Z.max (fexp (Zdigits2 m + e)) e in
  exists m1 mr mf ef,
    m1 = m / 2 ^ (E0 - e) /\ 0 < m1 /\ m1 <= mr <= m1 + 1 /\
    0 < mf /\ E0 <= ef /\ (ef = E0 -> mf = mr) /\
    (e <= fexp (Zdigits2 m + e) -> fexp (Zdigits2 mf + ef) = ef) /\
    binary_round_aux prec emax sx m e l =
      if ef <=? 971 then S754_finite sx (Z.to_pos mf) ef else S754_infinity sx.
Proof.
  intros Hm He E0.
  destruct (binary_round_aux_spec sx m e l ltac:(lia))
    as (m1 & e1 & mr & mf & ef & Em1 & Ee1 & Hmr & Emf & Eef & ->).
  assert (En : Z.max (fexp (Zdigits2 m + e) - e) 0 = E0 - e) by (subst E0; lia).
  pose proof (shift_positive m e Hm He) as Hm1. rewrite <- Em1 in Hm1.
  rewrite En in Em1, Ee1.
  assert (He1 : e1 = E0) by lia.
  assert (Hmr0 : 0 < mr) by lia.
  assert (HE0 : -1074 <= e1) by (subst E0; lia).
  pose proof (shift_positive mr e1 Hmr0 HE0) as Hmf. rewrite <- Emf in Hmf.
  exists m1, mr, mf, ef. split; [exact Em1|]. split; [exact Hm1|]. split; [exact Hmr|].
  split; [exact Hmf|]. split; [lia|]. split; [|split].
  - intros Hef. rewrite Emf. replace (Z.max (fexp (Zdigits2 mr + e1) - e1) 0) with 0 by lia.
    change (2 ^ 0) with 1. apply Z.div_1_r.
  - intros Hcan.
    assert (Hd1 : Zdigits2 m1 + e1 = Zdigits2 m + e).
    { rewrite Em1. destruct (Z.eq_dec (E0 - e) 0) as [Ez|Nz].
      - rewrite Ez. change (2 ^ 0) with 1. rewrite Z.div_1_r. lia.
      - rewrite Zdigits2_div_pow2; [lia|lia|lia|].
        subst E0. rewrite fexp_eq in *. pose proof (Zdigits2_pos m Hm). lia. }
    assert (Hdr : Zdigits2 m1 <= Zdigits2 mr) by (apply Zdigits2_le; lia).
    assert (Hc1 : e1 <= fexp (Zdigits2 mr + e1)).
    { assert (fexp (Zdigits2 m1 + e1) <= fexp (Zdigits2 mr + e1)) by (apply fexp_le; lia).
      rewrite Hd1 in H. subst E0. lia. }
    set (n2 := Z.max (fexp (Zdigits2 mr + e1) - e1) 0) in *.
    destruct (Z.eq_dec n2 0) as [Ez|Nz].
    + rewrite Emf, Eef, Ez. change (2 ^ 0) with 1. rewrite Z.div_1_r.
      rewrite Z.add_0_r. lia.
    + assert (En2 : n2 = Zdigits2 mr - 53).
      { subst n2. rewrite fexp_eq in *. lia. }
      assert (Hdf : Zdigits2 mf = Zdigits2 mr - n2).
      { rewrite Emf. apply Zdigits2_div_pow2; lia. }
      rewrite fexp_eq in *. lia.
  - destruct mf as [|p|p]; try lia. reflexivity.
Qed.

Lemma iter_xO m d : Z.pos (Pos.iter xO m d) = Z.pos m * 2 ^ Z.pos d.
Proof.
  rewrite (Pos.iter_swap_gen _ _ Z.pos xO (Z.mul 2)) by reflexivity.
  rewrite <- Z.shiftl_mul_pow2 by lia. reflexivity.
Qed.

Lemma shl_align_spec mx ex ex' :
  Z.pos (fst (shl_align mx ex ex')) = Z.pos mx * 2 ^ (ex - Z.min ex ex') /\
  snd (shl_align mx ex ex') = Z.min ex ex'.
Proof.
  unfold shl_align. destruct (ex' - ex) as [|d|d] eqn:E; cbn [fst snd].
  - rewrite Z.min_l by lia. rewrite Z.sub_diag. cbn. lia.
  - rewrite Z.min_l by lia. rewrite Z.sub_diag. cbn. lia.
  - rewrite Z.min_r by lia. rewrite iter_xO. split; [|reflexivity].
    f_equal. f_equal. lia.
Qed.

Lemma binary_round_pos sx (M : positive) ez :
  -1074 <= ez ->
  let E0 := fexp (Zdigits2 (Z.pos M) + ez) in
  exists m1 mr mf ef,
    (ez <= E0 -> m1 = Z.pos M / 2 ^ (E0 - ez)) /\
    0 < m1 /\ m1 <= mr <= m1 + 1 /\
    0 < mf /\ E0 <= ef /\ (ef = E0 -> mf = mr) /\
    fexp (Zdigits2 mf + ef) = ef /\
    binary_round prec emax sx M ez =
      if ef <=? 971 then S754_finite sx (Z.to_pos mf) ef else S754_infinity sx.
Proof.
  intros Hez E0. unfold binary_round.
  pose proof (shl_align_spec M ez (SpecFloat.fexp prec emax (Z.pos (digits2_pos M) + ez)))
    as [Hm He].
  change (Z.pos (digits2_pos M)) with (Zdigits2 (Z.pos M)) in *. fold E0 in Hm, He |- *.
  destruct (shl_align M ez E0) as [mz ez'] eqn:S. cbn [fst snd] in Hm, He.
  assert (HE0 : -1074 <= E0) by (subst E0; rewrite fexp_eq; lia).
  assert (Hdig : Zdigits2 (Z.pos mz) + ez' = Zdigits2 (Z.pos M) + ez).
  { rewrite Hm, Zdigits2_mul_pow2 by lia. lia. }
  destruct (binary_round_aux_pos sx (Z.pos mz) ez' loc_Exact ltac:(lia) ltac:(lia))
    as (m1 & mr & mf & ef & Em1 & Hm1 & Hmr & Hmf & Hef & Heq & Hcan & ->).
  rewrite Hdig in Em1, Hef, Heq, Hcan. fold E0 in Em1, Hef, Heq, Hcan.
  assert (Emax : Z.max E0 ez' = E0) by lia. rewrite Emax in Em1, Hef, Heq.
  specialize (Hcan ltac:(lia)).
  exists m1, mr, mf, ef. split; [|auto 10].
  intros Hle. rewrite Em1, Hm. rewrite He. rewrite Z.min_l by lia.
  rewrite Z.sub_diag. change (2 ^ 0) with 1. rewrite Z.mul_1_r. reflexivity.
Qed.

(** The binary64 sum of two positive numbers is not below the first. *)
Lemma SFadd_ge_l m1 e1 m2 e2 :
  valid_binary (S754_finite false m1 e1) = true ->
  valid_binary (S754_finite false m2 e2) = true ->
  SFadd prec emax (S754_finite false m1 e1) (S754_finite false m2 e2)
    = S754_infinity false \/
  exists m e,
    SFadd prec emax (S754_finite false m1 e1) (S754_finite false m2 e2)
      = S754_finite false m e /\ lex_le m1 e1 m e.
Proof.
  intros V1 V2. unfold SFadd. cbn [cond_Zopp].
  pose proof (valid_finite _ _ _ V1) as [C1 _].
  pose proof (valid_finite_bounds _ _ _ V1) as (He1 & _).
  pose proof (valid_finite_bounds _ _ _ V2) as (He2 & _).
  set (ez := Z.min e1 e2).
  pose proof (shl_align_spec m1 e1 ez) as [A1 _].
  pose proof (shl_align_spec m2 e2 ez) as [A2 _].
  rewrite Z.min_r in A1 by (subst ez; lia). rewrite Z.min_r in A2 by (subst ez; lia).
  set (a1 := fst (shl_align m1 e1 ez)) in *. set (a2 := fst (shl_align m2 e2 ez)) in *.
  change (Z.pos a1 + Z.pos a2) with (Z.pos (a1 + a2)). cbn [binary_normalize].
  destruct (binary_round_pos false (a1 + a2)%positive ez ltac:(subst ez; lia))
    as (q1 & mr & mf & ef & Eq1 & Hq1 & Hmr & Hmf & Hef & Heq & _ & ->).
  set (E0 := fexp (Zdigits2 (Z.pos (a1 + a2)) + ez)) in *.
  destruct (ef <=? 971); [right|left; reflexivity].
  eexists _, _. split; [reflexivity|]. unfold lex_le. rewrite Z2Pos.id by exact Hmf.
  assert (Hp : 0 < 2 ^ (e1 - ez)) by (apply Z.pow_pos_nonneg; subst ez; lia).
  assert (HM : Z.pos m1 * 2 ^ (e1 - ez) <= Z.pos (a1 + a2)) by lia.
  assert (HE0 : e1 <= E0).
  { rewrite C1 at 1. subst E0. apply fexp_le.
    assert (Zdigits2 (Z.pos m1 * 2 ^ (e1 - ez)) <= Zdigits2 (Z.pos (a1 + a2)))
      by (apply Zdigits2_le; lia).
    rewrite Zdigits2_mul_pow2 in H by (subst ez; lia). lia. }
  destruct (Z.eq_dec ef e1) as [Eef|Nef]; [right|left; lia].
  split; [symmetry; exact Eef|].
  assert (EE : E0 = e1) by lia.
  rewrite (Heq ltac:(lia)).
  assert (q1 = Z.pos (a1 + a2) / 2 ^ (E0 - ez)) by (apply Eq1; subst ez; lia).
  assert (Z.pos m1 <= q1); [|lia].
  subst q1. rewrite EE. apply Z.div_le_lower_bound; [exact Hp|]. lia.
Qed.

(** *** Sizes: no overflow, no NaN *)

Lemma Zdigits2_succ a : 0 <= a -> Zdigits2 (a + 1) <= Zdigits2 a + 1.
Proof.
  intros Ha. destruct (Z.eq_dec a 0) as [->|Hne]; [apply Z.leb_le; reflexivity|].
  pose proof (Zdigits2_bounds a ltac:(lia)) as [_ Hhi].
  pose proof (Zdigits2_pos a ltac:(lia)).
  apply Zdigits2_le_pow; lia.
Qed.

Lemma Zdigits2_mul_le a b : 0 < a -> 0 < b -> Zdigits2 (a * b) <= Zdigits2 a + Zdigits2 b.
Proof.
  intros Ha Hb.
  pose proof (Zdigits2_bounds a Ha) as [_ Ha2]. pose proof (Zdigits2_bounds b Hb) as [_ Hb2].
  pose proof (Zdigits2_pos a Ha). pose proof (Zdigits2_pos b Hb).
  apply Zdigits2_lt_pow; [lia|]. rewrite Z.pow_add_r by lia. nia.
Qed.

Lemma Zdigits2_mul_ge a b : 0 < a -> 0 < b -> Zdigits2 a + Zdigits2 b - 1 <= Zdigits2 (a * b).
Proof.
  intros Ha Hb.
  pose proof (Zdigits2_bounds a Ha) as [Ha1 _]. pose proof (Zdigits2_bounds b Hb) as [Hb1 _].
  pose proof (Zdigits2_pos a Ha). pose proof (Zdigits2_pos b Hb).
  pose proof (Zdigits2_bounds (a * b) ltac:(nia)) as [_ Hab].
  assert (Hlow : 2 ^ (Zdigits2 a - 1 + (Zdigits2 b - 1)) <= a * b).
  { rewrite Z.pow_add_r by lia.
    assert (0 < 2 ^ (Zdigits2 a - 1)) by (apply Z.pow_pos_nonneg; lia).
    assert (0 < 2 ^ (Zdigits2 b - 1)) by (apply Z.pow_pos_nonneg; lia). nia. }
  assert (Hlt : 2 ^ (Zdigits2 a - 1 + (Zdigits2 b - 1)) < 2 ^ Zdigits2 (a * b)) by lia.
  apply Z.pow_lt_mono_r_iff in Hlt; [lia|lia|apply Zdigits2_nonneg].
Qed.

(** Shifting right does not increase the magnitude. *)
Lemma magnitude_shift m n : 0 <= m -> 0 <= n ->
  0 < m / 2 ^ n -> Zdigits2 (m / 2 ^ n) + n <= Zdigits2 m.
Proof.
  intros Hm Hn Hq.
  assert (Hp : 0 < 2 ^ n) by (apply Z.pow_pos_nonneg; lia).
  rewrite <- Zdigits2_mul_pow2 by lia. apply Zdigits2_le. split; [nia|].
  rewrite Z.mul_comm. apply Z.mul_div_le. exact Hp.
Qed.


Lemma small_le k k' x : small k x -> k <= k' -> small k' x.
Proof. destruct x as [| | |[|] m e]; cbn; try tauto. lia. Qed.

Lemma round_small m e l K :
  0 <= m -> Zdigits2 m + e <= K -> -1074 <= K <= 970 ->
  small (K + 1) (binary_round_aux prec emax false m e l).
Proof.
  intros Hm Hmag HK.
  destruct (binary_round_aux_spec false m e l Hm)
    as (m1 & e1 & mr & mf & ef & Em1 & Ee1 & Hmr & Emf & Eef & ->).
  pose proof (Zdigits2_nonneg m) as Hd.
  set (n := Z.max (fexp (Zdigits2 m + e) - e) 0) in *.
  assert (Hn : 0 <= n) by lia.
  assert (He1 : e1 <= K). { rewrite Ee1. unfold n. rewrite fexp_eq. lia. }
  assert (Hm1 : 0 <= m1).
  { rewrite Em1. apply Z.div_pos; [lia|apply Z.pow_pos_nonneg; lia]. }
  assert (Hmag1 : Zdigits2 m1 + e1 <= K).
  { destruct (Z.eq_dec m1 0) as [->|Hne]; [cbn; lia|].
    pose proof (magnitude_shift m n Hm Hn ltac:(lia)). rewrite <- Em1 in H. lia. }
  assert (Hmagr : Zdigits2 mr + e1 <= K + 1).
  { assert (Zdigits2 mr <= Zdigits2 (m1 + 1)) by (apply Zdigits2_le; lia).
    pose proof (Zdigits2_succ m1 Hm1). lia. }
  set (n2 := Z.max (fexp (Zdigits2 mr + e1) - e1) 0) in *.
  assert (Hn2 : 0 <= n2) by lia.
  assert (Hef : ef <= K). { rewrite Eef. unfold n2. rewrite fexp_eq. lia. }
  assert (Hmf : 0 <= mf).
  { rewrite Emf. apply Z.div_pos; [lia|apply Z.pow_pos_nonneg; lia]. }
  destruct mf as [|p|p]; [exact I| |lia].
  change (emax - prec) with 971. rewrite (proj2 (Z.leb_le ef 971)) by lia.
  cbn [small].
  pose proof (magnitude_shift mr n2 ltac:(lia) Hn2 ltac:(lia)). rewrite <- Emf in H. lia.
Qed.

Lemma binary_round_small (M : positive) ez K :
  Zdigits2 (Z.pos M) + ez <= K -> -1074 <= K <= 970 ->
  small (K + 1) (binary_round prec emax false M ez).
Proof.
  intros Hmag HK. unfold binary_round.
  pose proof (shl_align_spec M ez (SpecFloat.fexp prec emax (Z.pos (digits2_pos M) + ez)))
    as [Hm He].
  destruct (shl_align M ez _) as [mz ez']. cbn [fst snd] in Hm, He.
  apply round_small; [lia| |exact HK].
  rewrite Hm, Zdigits2_mul_pow2 by lia. cbn [Zdigits2] in Hmag |- *. lia.
Qed.

Lemma SFmul_small k1 k2 x y :
  small k1 x -> small k2 y -> -1074 <= k1 + k2 <= 970 ->
  small (k1 + k2 + 1) (SFmul prec emax x y).
Proof.
  destruct x as [sx| | |[|] m1 e1]; destruct y as [sy| | |[|] m2 e2];
    cbn [small SFmul]; try tauto.
  intros H1 H2 HK. cbn [xorb]. apply round_small; [lia| |exact HK].
  rewrite Pos2Z.inj_mul.
  pose proof (Zdigits2_mul_le (Z.pos m1) (Z.pos m2) ltac:(lia) ltac:(lia)). lia.
Qed.

Lemma SFadd_small k x y :
  small k x -> small k y -> -1074 <= k <= 969 ->
  small (k + 2) (SFadd prec emax x y).
Proof.
  destruct x as [[|]| | |[|] m1 e1]; destruct y as [[|]| | |[|] m2 e2];
    cbn [small SFadd]; try tauto; try lia.
  intros H1 H2 HK. cbn [cond_Zopp].
  set (ez := Z.min e1 e2).
  pose proof (shl_align_spec m1 e1 ez) as [A1 _].
  pose proof (shl_align_spec m2 e2 ez) as [A2 _].
  rewrite Z.min_r in A1 by (subst ez; lia). rewrite Z.min_r in A2 by (subst ez; lia).
  set (a1 := fst (shl_align m1 e1 ez)) in *. set (a2 := fst (shl_align m2 e2 ez)) in *.
  change (Z.pos a1 + Z.pos a2) with (Z.pos (a1 + a2)). cbn [binary_normalize].
  replace (k + 2) with (k + 1 + 1) by lia.
  apply binary_round_small; [|lia].
  pose proof (Zdigits2_pos (Z.pos m1) ltac:(lia)).
  pose proof (Zdigits2_pos (Z.pos m2) ltac:(lia)).
  assert (Hd1 : Zdigits2 (Z.pos a1) + ez <= k).
  { rewrite A1, Zdigits2_mul_pow2 by (subst ez; lia). lia. }
  assert (Hd2 : Zdigits2 (Z.pos a2) + ez <= k).
  { rewrite A2, Zdigits2_mul_pow2 by (subst ez; lia). lia. }
  pose proof (Zdigits2_bounds (Z.pos a1) ltac:(lia)) as [_ B1].
  pose proof (Zdigits2_bounds (Z.pos a2) ltac:(lia)) as [_ B2].
  assert (Hk : 0 <= k - ez) by (subst ez; lia).
  assert (Z.pos a1 < 2 ^ (k - ez)).
  { eapply Z.lt_le_trans; [exact B1|]. apply Z.pow_le_mono_r; lia. }
  assert (Z.pos a2 < 2 ^ (k - ez)).
  { eapply Z.lt_le_trans; [exact B2|]. apply Z.pow_le_mono_r; lia. }
  assert (Zdigits2 (Z.pos (a1 + a2)) <= k - ez + 1); [|lia].
  apply Zdigits2_lt_pow; [lia|]. rewrite Z.pow_add_r by lia. change (2 ^ 1) with 2. lia.
Qed.

Lemma SFdiv_small k j x m2 e2 :
  small k x -> j <= Zdigits2 (Z.pos m2) + e2 -> -1074 <= k - j + 1 <= 970 ->
  small (k - j + 2) (SFdiv prec emax x (S754_finite false m2 e2)).
Proof.
  destruct x as [sx| | |[|] m1 e1]; cbn [small SFdiv]; try tauto.
  intros H1 H2 HK. cbn [xorb]. unfold SFdiv_core_binary.
  set (d1 := Zdigits2 (Z.pos m1)) in *. set (d2 := Zdigits2 (Z.pos m2)) in *.
  set (e' := Z.min (SpecFloat.fexp prec emax (d1 + e1 - (d2 + e2))) (e1 - e2)).
  assert (He' : e' <= k - j + 1 /\ e' <= e1 - e2). { subst e'. rewrite fexp_eq. lia. }
  set (s := e1 - e2 - e').
  assert (Hs0 : 0 <= s) by (subst s; lia).
  set (m' := match s with Z.pos _ => Z.shiftl (Z.pos m1) s | 0 => Z.pos m1 | Z.neg _ => 0 end).
  assert (Hm' : m' = Z.pos m1 * 2 ^ s).
  { subst m'. destruct s; try lia. apply Z.shiftl_mul_pow2. lia. }
  clearbody m'. subst m'.
  pose proof (Z.div_eucl_eq (Z.pos m1 * 2 ^ s) (Z.pos m2) ltac:(lia)) as Hdiv.
  pose proof (Z.mod_pos_bound (Z.pos m1 * 2 ^ s) (Z.pos m2) ltac:(lia)) as Hmod.
  unfold Z.modulo in Hmod.
  destruct (Z.div_eucl (Z.pos m1 * 2 ^ s) (Z.pos m2)) as [q r].
  assert (Hp : 0 < 2 ^ s) by (apply Z.pow_pos_nonneg; lia).
  assert (Hq : 0 <= q) by nia.
  replace (k - j + 2) with (k - j + 1 + 1) by lia.
  apply round_small; [exact Hq| |exact HK].
  destruct (Z.eq_dec q 0) as [->|Hne]; [cbn [Zdigits2]; lia|].
  pose proof (Zdigits2_mul_ge q (Z.pos m2) ltac:(lia) ltac:(lia)) as Hge.
  assert (Hle : Zdigits2 (q * Z.pos m2) <= Zdigits2 (Z.pos m1 * 2 ^ s)).
  { apply Zdigits2_le. nia. }
  rewrite Zdigits2_mul_pow2 in Hle by lia. fold d1 d2 in Hge, Hle. subst s. lia.
Qed.


Lemma pos_small_small lo hi x : pos_small lo hi x -> small hi x.
Proof. destruct x as [| | |[|] m e]; cbn; tauto. Qed.

Lemma pos_small_le lo hi lo' hi' x :
  pos_small lo hi x -> lo' <= lo -> hi <= hi' -> pos_small lo' hi' x.
Proof. destruct x as [| | |[|] m e]; cbn; try tauto. lia. Qed.

Lemma binary_normalize_valid z :
  valid_binary (binary_normalize prec emax z 0 false) = true.
Proof.
  destruct z as [|M|M]; cbn [binary_normalize]; [reflexivity| |].
  - destruct (binary_round_pos false M 0 ltac:(lia))
      as (m1 & mr & mf & ef & _ & _ & _ & Hmf & _ & _ & Hcan & ->).
    destruct (ef <=? 971) eqn:E; [|reflexivity].
    cbn [SpecFloat.valid_binary]. unfold bounded, canonical_mantissa.
    change (Z.pos (digits2_pos (Z.to_pos mf))) with (Zdigits2 (Z.pos (Z.to_pos mf))).
    rewrite Z2Pos.id by exact Hmf. rewrite Hcan, Z.eqb_refl. exact E.
  - destruct (binary_round_pos true M 0 ltac:(lia))
      as (m1 & mr & mf & ef & _ & _ & _ & Hmf & _ & _ & Hcan & ->).
    destruct (ef <=? 971) eqn:E; [|reflexivity].
    cbn [SpecFloat.valid_binary]. unfold bounded, canonical_mantissa.
    change (Z.pos (digits2_pos (Z.to_pos mf))) with (Zdigits2 (Z.pos (Z.to_pos mf))).
    rewrite Z2Pos.id by exact Hmf. rewrite Hcan, Z.eqb_refl. exact E.
Qed.

Lemma binary_normalize_pos z k :
  0 < z < 2 ^ k -> k <= 969 ->
  pos_small (-52) (k + 1) (binary_normalize prec emax z 0 false).
Proof.
  intros [Hz Hlt] Hk. destruct z as [|M|M]; try lia. cbn [binary_normalize].
  assert (Hk0 : 0 <= k).
  { destruct (Z_lt_le_dec k 0) as [Hneg|]; [|lia].
    rewrite Z.pow_neg_r in Hlt by exact Hneg. lia. }
  assert (Hd : Zdigits2 (Z.pos M) <= k) by (apply Zdigits2_lt_pow; lia).
  pose proof (Zdigits2_pos (Z.pos M) ltac:(lia)) as Hd0.
  pose proof (binary_round_small M 0 k ltac:(lia) ltac:(lia)) as Hs.
  destruct (binary_round_pos false M 0 ltac:(lia))
    as (m1 & mr & mf & ef & _ & _ & _ & Hmf & Hef & _ & _ & E).
  rewrite E in Hs |- *. rewrite fexp_eq in Hef.
  destruct (ef <=? 971); cbn [small pos_small] in Hs |- *; [|exact Hs].
  split; [lia|exact Hs].
Qed.

Lemma SFmul_pos lo1 hi1 lo2 hi2 x y :
  pos_small lo1 hi1 x -> pos_small lo2 hi2 y ->
  -1074 <= lo1 + lo2 -> -1074 <= hi1 + hi2 <= 970 ->
  pos_small (lo1 + lo2) (hi1 + hi2 + 1) (SFmul prec emax x y).
Proof.
  intros Hx Hy Hlo Hhi.
  pose proof (SFmul_small hi1 hi2 x y (pos_small_small _ _ _ Hx)
                (pos_small_small _ _ _ Hy) Hhi) as Hs.
  destruct x as [| | |[|] m1 e1]; try (destruct Hx; fail).
  destruct y as [| | |[|] m2 e2]; try (destruct Hy; fail).
  cbn [pos_small] in Hx, Hy. cbn [SFmul xorb] in Hs |- *.
  destruct (binary_round_aux_pos false (Z.pos (m1 * m2)) (e1 + e2) loc_Exact
              ltac:(lia) ltac:(lia))
    as (q1 & mr & mf & ef & _ & _ & _ & Hmf & Hef & _ & _ & E).
  rewrite E in Hs |- *.
  destruct (ef <=? 971); cbn [small pos_small] in Hs |- *; [|exact Hs].
  split; [lia|exact Hs].
Qed.

Lemma SFdiv_pos lo1 hi1 x m2 e2 :
  pos_small lo1 hi1 x -> valid_binary x = true -> -1074 < lo1 ->
  Zdigits2 (Z.pos m2) = 53 -> -1074 <= lo1 - e2 - 53 ->
  -1074 <= hi1 - (53 + e2) + 1 <= 970 ->
  pos_small (lo1 - e2 - 53) (hi1 - (53 + e2) + 2)
    (SFdiv prec emax x (S754_finite false m2 e2)).
Proof.
  intros Hx Vx Hlo Hd2 Hlo' Hhi.
  pose proof (SFdiv_small hi1 (53 + e2) x m2 e2 (pos_small_small _ _ _ Hx)
                ltac:(lia) Hhi) as Hs.
  destruct x as [| | |[|] m1 e1]; try (destruct Hx; fail).
  cbn [pos_small] in Hx.
  pose proof (valid_finite_bounds _ _ _ Vx) as (_ & _ & Hd1).
  specialize (Hd1 ltac:(lia)).
  revert Hs. cbn [SFdiv xorb]. unfold SFdiv_core_binary.
  rewrite Hd1, Hd2.
  set (e' := Z.min (SpecFloat.fexp prec emax (53 + e1 - (53 + e2))) (e1 - e2)).
  assert (He' : e' = e1 - e2 - 53). { subst e'. rewrite fexp_eq. lia. }
  set (s := e1 - e2 - e').
  assert (Hs53 : s = 53) by (subst s; lia).
  set (m' := match s with Z.pos _ => Z.shiftl (Z.pos m1) s | 0 => Z.pos m1 | Z.neg _ => 0 end).
  assert (Hm' : m' = Z.pos m1 * 2 ^ 53).
  { subst m'. rewrite Hs53. apply Z.shiftl_mul_pow2. lia. }
  clearbody m'. subst m'.
  pose proof (Z.div_eucl_eq (Z.pos m1 * 2 ^ 53) (Z.pos m2) ltac:(lia)) as Hdiv.
  pose proof (Z.mod_pos_bound (Z.pos m1 * 2 ^ 53) (Z.pos m2) ltac:(lia)) as Hmod.
  unfold Z.modulo in Hmod.
  destruct (Z.div_eucl (Z.pos m1 * 2 ^ 53) (Z.pos m2)) as [q r].
  pose proof (Zdigits2_bounds (Z.pos m1) ltac:(lia)) as [B1 _].
  pose proof (Zdigits2_bounds (Z.pos m2) ltac:(lia)) as [_ B2].
  rewrite Hd1 in B1. rewrite Hd2 in B2.
  change (2 ^ (53 - 1)) with 4503599627370496 in B1.
  change (2 ^ 53) with 9007199254740992 in *.
  assert (Hq : 0 < q) by nia.
  destruct (binary_round_aux_pos false q e' (new_location (Z.pos m2) r)
              Hq ltac:(lia))
    as (q1 & mr & mf & ef & _ & _ & _ & Hmf & Hef & _ & _ & E).
  rewrite E. intros Hs.
  destruct (ef <=? 971); cbn [small pos_small] in Hs |- *; [|exact Hs].
  split; [lia|exact Hs].
Qed.

(** A positive number plus a small one is positive. *)
Lemma SFadd_pos_l lo hi k x y :
  pos_small lo hi x -> small k y ->
  valid_binary x = true -> valid_binary y = true ->
  hi <= k -> -1074 <= k <= 969 ->
  pos_small lo (k + 2) (SFadd prec emax x y).
Proof.
  intros Hx Hy Vx Vy Hhi Hk.
  pose proof (SFadd_small k x y (small_le _ _ _ (pos_small_small _ _ _ Hx) Hhi) Hy Hk) as Hs.
  destruct x as [| | |[|] m1 e1]; try (destruct Hx; fail).
  cbn [pos_small] in Hx.
  destruct y as [sy| | |[|] m2 e2]; try (destruct Hy; fail).
  - cbn [SFadd pos_small]. lia.
  - destruct (SFadd_ge_l m1 e1 m2 e2 Vx Vy) as [E | (m & e & E & Hle)];
      rewrite E in Hs |- *; [exact Hs|].
    cbn [small pos_small] in Hs |- *. unfold lex_le in Hle. lia.
Qed.

Lemma SFadd_pos_r lo hi k x y :
  small k x -> pos_small lo hi y ->
  valid_binary x = true -> valid_binary y = true ->
  hi <= k -> -1074 <= k <= 969 ->
  exists lo', pos_small lo' (k + 2) (SFadd prec emax x y).
Proof.
  intros Hx Hy Vx Vy Hhi Hk.
  destruct x as [sx| | |[|] m1 e1]; try (destruct Hx; fail).
  - destruct y as [| | |[|] m2 e2]; try (destruct Hy; fail).
    exists lo. cbn [SFadd pos_small] in Hy |- *. lia.
  - exists e1. apply (SFadd_pos_l e1 k k); try assumption; try lia.
    + cbn [small pos_small] in Hx |- *. lia.
    + exact (small_le _ _ _ (pos_small_small _ _ _ Hy) Hhi).
Qed.

(** *** Primitive floats *)

Lemma Prim2SF_of_int z :
  Prim2SF (double_of_int z) = binary_normalize prec emax z 0 false.
Proof. unfold double_of_int. apply Prim2SF_SF2Prim, binary_normalize_valid. Qed.

(** On the non-negative 63-bit integers the conversion is the primitive
    one, and it rounds to nearest, ties to even. *)
Lemma double_of_int_uint63 (n : PrimInt63.int) :
  double_of_int (Uint63Axioms.to_Z n) = of_uint63 n.
Proof.
  unfold double_of_int. rewrite <- of_uint63_spec. apply SF2Prim_Prim2SF.
Qed.

Example double_of_int_rounds :
  double_of_int 1179921 = 1179921%float /\
  double_of_int (2 ^ 53 + 1) = 9007199254740992%float /\
  double_of_int (2 ^ 53 + 3) = 9007199254740996%float /\
  double_of_int (2 ^ 64 - 1) = 18446744073709551616%float /\
  double_of_int (-172800000) = (-172800000)%float.
Proof. repeat split. Qed.

Lemma of_int_pos z k :
  0 < z < 2 ^ k -> k <= 969 -> pos_small (-52) (k + 1) (Prim2SF (double_of_int z)).
Proof. intros Hz Hk. rewrite Prim2SF_of_int. apply binary_normalize_pos; assumption. Qed.

Lemma of_int_small z k :
  0 <= z < 2 ^ k -> k <= 969 -> small (k + 1) (Prim2SF (double_of_int z)).
Proof.
  intros Hz Hk. destruct (Z.eq_dec z 0) as [->|Hne]; [exact I|].
  eapply pos_small_small, of_int_pos; [lia|exact Hk].
Qed.

Lemma fmul_small k1 k2 a b :
  small k1 (Prim2SF a) -> small k2 (Prim2SF b) -> -1074 <= k1 + k2 <= 970 ->
  small (k1 + k2 + 1) (Prim2SF (a * b)%float).
Proof. intros. rewrite mul_spec. apply SFmul_small; assumption. Qed.

Lemma fmul_pos lo1 hi1 lo2 hi2 a b :
  pos_small lo1 hi1 (Prim2SF a) -> pos_small lo2 hi2 (Prim2SF b) ->
  -1074 <= lo1 + lo2 -> -1074 <= hi1 + hi2 <= 970 ->
  pos_small (lo1 + lo2) (hi1 + hi2 + 1) (Prim2SF (a * b)%float).
Proof. intros. rewrite mul_spec. apply SFmul_pos; assumption. Qed.

Lemma fadd_small k a b :
  small k (Prim2SF a) -> small k (Prim2SF b) -> -1074 <= k <= 969 ->
  small (k + 2) (Prim2SF (a + b)%float).
Proof. intros. rewrite add_spec. apply SFadd_small; assumption. Qed.

Lemma fadd_pos_l lo hi k a b :
  pos_small lo hi (Prim2SF a) -> small k (Prim2SF b) -> hi <= k -> -1074 <= k <= 969 ->
  pos_small lo (k + 2) (Prim2SF (a + b)%float).
Proof.
  intros. rewrite add_spec. eapply SFadd_pos_l; try eassumption; apply Prim2SF_valid.
Qed.

Lemma fadd_pos_r lo hi k a b :
  small k (Prim2SF a) -> pos_small lo hi (Prim2SF b) -> hi <= k -> -1074 <= k <= 969 ->
  exists lo', pos_small lo' (k + 2) (Prim2SF (a + b)%float).
Proof.
  intros. rewrite add_spec. eapply SFadd_pos_r; try eassumption; apply Prim2SF_valid.
Qed.

Lemma fdiv_small k j a b m2 e2 :
  Prim2SF b = S754_finite false m2 e2 ->
  small k (Prim2SF a) -> j <= Zdigits2 (Z.pos m2) + e2 -> -1074 <= k - j + 1 <= 970 ->
  small (k - j + 2) (Prim2SF (a / b)%float).
Proof. intros Hb. intros. rewrite div_spec, Hb. apply SFdiv_small; assumption. Qed.

Lemma fdiv_pos lo1 hi1 a b m2 e2 :
  Prim2SF b = S754_finite false m2 e2 ->
  pos_small lo1 hi1 (Prim2SF a) -> -1074 < lo1 ->
  Zdigits2 (Z.pos m2) = 53 -> -1074 <= lo1 - e2 - 53 ->
  -1074 <= hi1 - (53 + e2) + 1 <= 970 ->
  pos_small (lo1 - e2 - 53) (hi1 - (53 + e2) + 2) (Prim2SF (a / b)%float).
Proof.
  intros Hb. intros. rewrite div_spec, Hb.
  apply SFdiv_pos; try assumption. apply Prim2SF_valid.
Qed.

Lemma fmul_zero_l k a b :
  is_zero_SF (Prim2SF a) -> small k (Prim2SF b) -> is_zero_SF (Prim2SF (a * b)%float).
Proof.
  rewrite mul_spec. unfold SF64mul.
  destruct (Prim2SF a) as [sa| | |sa ma ea]; destruct (Prim2SF b) as [sb| | |[|] mb eb];
    cbn [is_zero_SF small SFmul]; tauto.
Qed.

Lemma fmul_zero_r k a b :
  small k (Prim2SF a) -> is_zero_SF (Prim2SF b) -> is_zero_SF (Prim2SF (a * b)%float).
Proof.
  rewrite mul_spec. unfold SF64mul.
  destruct (Prim2SF b) as [sb| | |sb mb eb]; destruct (Prim2SF a) as [sa| | |[|] ma ea];
    cbn [is_zero_SF small SFmul]; tauto.
Qed.

Lemma fdiv_zero_l a b m2 e2 :
  Prim2SF b = S754_finite false m2 e2 ->
  is_zero_SF (Prim2SF a) -> is_zero_SF (Prim2SF (a / b)%float).
Proof.
  intros Hb. rewrite div_spec, Hb. unfold SF64div.
  destruct (Prim2SF a) as [sa| | |sa ma ea]; cbn [is_zero_SF SFdiv]; tauto.
Qed.

Lemma fadd_zero a b :
  is_zero_SF (Prim2SF a) -> is_zero_SF (Prim2SF b) -> is_zero_SF (Prim2SF (a + b)%float).
Proof.
  rewrite add_spec. unfold SF64add.
  destruct (Prim2SF a) as [[|]| | |sa ma ea]; destruct (Prim2SF b) as [[|]| | |sb mb eb];
    cbn [is_zero_SF SFadd]; tauto.
Qed.

(** The three outcomes of the final division. *)
Lemma quotient_unit lo hi k a b :
  pos_small lo hi (Prim2SF a) -> small k (Prim2SF b) ->
  in_unit_interval (a / (a + b)) = true.
Proof.
  intros Ha Hb. unfold in_unit_interval. rewrite !leb_spec, div_spec.
  pose proof (Prim2SF_valid (a + b)) as Vs. rewrite add_spec in Vs |- *.
  pose proof (Prim2SF_valid a) as Va. pose proof (Prim2SF_valid b) as Vb.
  change (Prim2SF PrimFloat.zero) with (S754_zero false).
  change (Prim2SF PrimFloat.one) with SFone.
  destruct (Prim2SF a) as [| | |[|] m1 e1]; try (destruct Ha; fail).
  destruct (Prim2SF b) as [sb| | |[|] m2 e2]; try (destruct Hb; fail).
  - cbn [SF64add SFadd]. unfold SF64div. rewrite SFdiv_self. reflexivity.
  - unfold SF64add, SF64div in *.
    destruct (SFadd_ge_l m1 e1 m2 e2 Va Vb) as [E | (m & e & E & Hle)];
      rewrite E in Vs |- *; [reflexivity|].
    destruct (SFdiv_le_one m1 e1 m e Va Vs Hle) as (r & -> & H0 & H1).
    rewrite H0, H1. reflexivity.
Qed.

Lemma quotient_nan b :
  is_zero_SF (Prim2SF b) -> (0 / (0 + b))%float = nan.
Proof.
  intros Hb. apply Prim2SF_inj. rewrite div_spec, add_spec.
  change (Prim2SF 0) with (S754_zero false). change (Prim2SF nan) with S754_nan.
  destruct (Prim2SF b) as [[|]| | |sb mb eb]; try (destruct Hb; fail); reflexivity.
Qed.

Lemma quotient_zero lo hi b :
  pos_small lo hi (Prim2SF b) -> (0 / (0 + b))%float = 0%float.
Proof.
  intros Hb. apply Prim2SF_inj. rewrite div_spec, add_spec.
  change (Prim2SF 0) with (S754_zero false).
  destruct (Prim2SF b) as [| | |[|] m e]; try (destruct Hb; fail). reflexivity.
Qed.

Lemma Prim2SF_86400 :
  Prim2SF (double_of_int 86400) = S754_finite false 5937362789990400 (-36).
Proof. vm_compute. reflexivity. Qed.

Section Range.
Variables (Tc tc rate now x t : Z) (fast : bool).
Hypothesis HTc : 0 <= Tc < 2 ^ 31.
Hypothesis Htc : 0 <= tc < 2 ^ 32.
Hypothesis Hrate : 0 <= rate < 2 ^ 31.
Hypothesis Hx : 0 <= x < 2 ^ 64.
Hypothesis Ht : 0 <= t < 2 ^ 32.
Hypothesis Hnow : - 2 ^ 63 + 2 ^ 32 <= now < 2 ^ 63.

Let F : float := if fast then double_of_int 5 else double_of_int 1.
Let R : float := double_of_int rate.

Lemma factor_pos_small : pos_small (-52) 4 (Prim2SF F).
Proof. subst F. destruct fast; apply (of_int_pos _ 3); lia. Qed.

Lemma rate_small : small 32 (Prim2SF R).
Proof. apply (of_int_small rate 31); lia. Qed.

Lemma rate_pos : 0 < rate -> pos_small (-52) 32 (Prim2SF R).
Proof. intros Hr. apply (of_int_pos rate 31); lia. Qed.

Lemma days_small delta :
  0 <= delta < 2 ^ 64 ->
  small 50 (Prim2SF (double_of_int delta / double_of_int 86400)%float).
Proof.
  intros Hd. apply (fdiv_small 65 17 _ _ _ _ Prim2SF_86400).
  - apply (of_int_small delta 64); lia.
  - apply Z.leb_le. reflexivity.
  - lia.
Qed.

Lemma days_pos_small delta :
  0 < delta < 2 ^ 64 ->
  pos_small (-69) 50 (Prim2SF (double_of_int delta / double_of_int 86400)%float).
Proof.
  intros Hd. apply (fdiv_pos (-52) 65 _ _ _ _ Prim2SF_86400).
  - apply (of_int_pos delta 64); lia.
  - lia.
  - reflexivity.
  - lia.
  - lia.
Qed.

Lemma days_zero :
  is_zero_SF (Prim2SF (double_of_int 0 / double_of_int 86400)%float).
Proof. apply (fdiv_zero_l _ _ _ _ Prim2SF_86400). exact I. Qed.

(** The expensive work left: days times rate times factor. *)
Lemma expensive_small delta :
  0 <= delta < 2 ^ 64 ->
  small 88 (Prim2SF (double_of_int delta / double_of_int 86400 * R * F)%float).
Proof.
  intros Hd. apply (fmul_small 83 4); [|exact (pos_small_small _ _ _ factor_pos_small)|lia].
  apply (fmul_small 50 32); [exact (days_small delta Hd)|exact rate_small|lia].
Qed.

Lemma expensive_pos delta :
  0 < delta < 2 ^ 64 -> 0 < rate ->
  pos_small (-173) 88 (Prim2SF (double_of_int delta / double_of_int 86400 * R * F)%float).
Proof.
  intros Hd Hr. apply (fmul_pos (-121) 83 (-52) 4); [|exact factor_pos_small|lia|lia].
  apply (fmul_pos (-69) 50 (-52) 32); [exact (days_pos_small delta Hd)|exact (rate_pos Hr)|lia|lia].
Qed.

Lemma expensive_zero delta :
  0 <= delta < 2 ^ 64 -> delta = 0 \/ rate = 0 ->
  is_zero_SF (Prim2SF (double_of_int delta / double_of_int 86400 * R * F)%float).
Proof.
  intros Hd Hz. apply (fmul_zero_l 4); [|exact (pos_small_small _ _ _ factor_pos_small)].
  destruct Hz as [-> | Hr].
  - apply (fmul_zero_l 32); [exact days_zero|exact rate_small].
  - apply (fmul_zero_r 50); [exact (days_small delta Hd)|].
    subst R. rewrite Hr. exact I.
Qed.

Hypothesis HA : x <= Tc -> tc <= now.
Hypothesis HB : Tc < x -> t <= now.

(** Where the denominator is zero the result is NaN; everywhere else it is
    a number of [0,1]. *)
Lemma spec_progress_range :
  let r := spec_progress (D := float) Tc tc R now x t fast in
  if (x =? 0) && (Tc =? 0) && ((rate =? 0) || (now =? tc)) then r = nan
  else in_unit_interval r = true.
Proof.
  unfold spec_progress. cbn [of_int fadd fmul fdiv binary64]. fold F.
  destruct (x <=? Tc) eqn:E.
  - apply Z.leb_le in E. specialize (HA E).
    assert (Hdelta : 0 <= now - tc < 2 ^ 64) by lia.
    pose proof (expensive_small (now - tc) Hdelta) as HX.
    assert (Hcheap : small 88 (Prim2SF (double_of_int (Tc - x)))).
    { apply (small_le 32); [|lia]. apply (of_int_small (Tc - x) 31); lia. }
    pose proof (fadd_small 88 _ _ Hcheap HX ltac:(lia)) as Hwa.
    destruct (Z.eq_dec x 0) as [Ex|Nx].
    + subst x. change (double_of_int 0) with 0%float.
      rewrite Z.eqb_refl. cbn [andb].
      destruct (Z.eq_dec Tc 0) as [ETc|NTc].
      * rewrite ETc, Z.eqb_refl. cbn [andb]. rewrite Z.sub_0_r.
        change (double_of_int 0) with 0%float.
        destruct ((rate =? 0) || (now =? tc)) eqn:Ez.
        -- apply quotient_nan. apply fadd_zero; [exact I|].
           apply expensive_zero; [exact Hdelta|].
           apply orb_prop in Ez as [Ez|Ez]; apply Z.eqb_eq in Ez; lia.
        -- apply orb_false_elim in Ez as [Er En].
           apply Z.eqb_neq in Er. apply Z.eqb_neq in En.
           pose proof (expensive_pos (now - tc) ltac:(lia) ltac:(lia)) as HXp.
           destruct (fadd_pos_r (-173) 88 88 0%float _ I HXp ltac:(lia) ltac:(lia))
             as [lo Hp].
           rewrite (quotient_zero _ _ _ Hp). reflexivity.
      * rewrite (proj2 (Z.eqb_neq Tc 0) NTc). cbn [andb]. rewrite Z.sub_0_r.
        assert (HTcp : pos_small (-52) 32 (Prim2SF (double_of_int Tc)))
          by (apply (of_int_pos Tc 31); lia).
        pose proof (fadd_pos_l (-52) 32 88 _ _ HTcp HX ltac:(lia) ltac:(lia)) as Hp.
        rewrite (quotient_zero _ _ _ Hp). reflexivity.
    + rewrite (proj2 (Z.eqb_neq x 0) Nx). cbn [andb].
      apply (quotient_unit (-52) 32 90); [|exact Hwa].
      apply (of_int_pos x 31); lia.
  - apply Z.leb_gt in E. specialize (HB E).
    rewrite (proj2 (Z.eqb_neq x 0)) by lia. cbn [andb].
    assert (Hdelta : 0 <= now - t < 2 ^ 64) by lia.
    pose proof (expensive_small (now - t) Hdelta) as HX.
    assert (Hxb : pos_small (-104) 70 (Prim2SF (double_of_int (x - Tc) * F)%float)).
    { apply (fmul_pos (-52) 65 (-52) 4); [|exact factor_pos_small|lia|lia].
      apply (of_int_pos (x - Tc) 64); lia. }
    assert (HTcs : small 70 (Prim2SF (double_of_int Tc))).
    { apply (small_le 32); [|lia]. apply (of_int_small Tc 31); lia. }
    destruct (fadd_pos_r (-104) 70 70 _ _ HTcs Hxb ltac:(lia) ltac:(lia)) as [lo Hwb].
    exact (quotient_unit _ _ _ _ _ Hwb HX).
Qed.

End Range.

(** Zero divided by a sum of zeros is NaN, whatever [q] is: the product
    [q * 0] is a zero or NaN, and so is everything computed from it. *)
Lemma zero_denominator (q F : float) (mF : positive) (eF : Z) :
  Prim2SF F = S754_finite false mF eF ->
  (0 / (0 + (0 + (q * 0) * F)))%float = nan.
Proof.
  intros HF. apply Prim2SF_inj.
  rewrite div_spec, !add_spec, !mul_spec, HF.
  change (Prim2SF 0) with (S754_zero false). change (Prim2SF nan) with S754_nan.
  destruct (Prim2SF q) as [[|]|[|]| |[|] m e]; reflexivity.
Qed.

Lemma zero_work_of_int Tc tc rate now x :
  0 <= rate < 2 ^ 31 ->
  zero_work Tc tc (double_of_int rate) now x =
  (x =? 0) && (Tc =? 0) && ((rate =? 0) || (now =? tc)).
Proof.
  intros Hr. unfold zero_work. f_equal. f_equal.
  destruct (Z.eq_dec rate 0) as [->|Hne]; [reflexivity|].
  rewrite (proj2 (Z.eqb_neq rate 0) Hne), FloatAxioms.eqb_spec.
  pose proof (of_int_pos rate 31 ltac:(lia) ltac:(lia)) as Hp.
  change (Prim2SF 0) with (S754_zero false).
  destruct (Prim2SF (double_of_int rate)) as [| | |[|] m e]; try (destruct Hp; fail).
  reflexivity.
Qed.

End Binary64Facts.

(** ** Rounding errors

    Every binary64 operation of GuessVerificationProgress returns its
    exact result up to one unit in the last place, as long as the result
    neither overflows nor underflows; the sizes followed above exclude
    both. Composing the operations bounds the distance between the
    binary64 result and the quotient of the two amounts of work. *)
Module Binary64Error.
Import Binary64 Binary64Facts.

(** *** The neighbours of a rounded mantissa *)

(** Rounding a mantissa of at least 53 digits: the result and the mantissa
    lie between two neighbouring numbers of 53 digits. *)
Lemma round_interval sx m e l :
  0 < m -> -1074 <= e -> 53 <= Zdigits2 m ->
  exists L n mf ef,
    0 <= n /\ 2 ^ 52 <= L /\ L * 2 ^ n <= m /\ m + 1 <= (L + 1) * 2 ^ n /\
    0 < mf /\ e + n <= ef /\
    L * 2 ^ n <= mf * 2 ^ (ef - e) <= (L + 1) * 2 ^ n /\
    binary_round_aux prec emax sx m e l =
      if ef <=? 971 then S754_finite sx (Z.to_pos mf) ef else S754_infinity sx.
Proof.
  intros Hm He Hd.
  destruct (binary_round_aux_spec sx m e l ltac:(lia))
    as (m1 & e1 & mr & mf & ef & Em1 & Ee1 & Hmr & Emf & Eef & ->).
  set (n := Z.max (fexp (Zdigits2 m + e) - e) 0) in *.
  assert (En : n = Zdigits2 m - 53) by (subst n; rewrite fexp_eq; lia).
  assert (Hn : 0 <= n) by lia.
  assert (Hp : 0 < 2 ^ n) by (apply Z.pow_pos_nonneg; lia).
  assert (Hd1 : Zdigits2 m1 = 53).
  { rewrite Em1, Zdigits2_div_pow2 by lia. lia. }
  assert (Hm1 : 0 < m1).
  { assert (0 <= m1) by (rewrite Em1; apply Z.div_pos; lia).
    destruct m1; cbn in Hd1; lia. }
  pose proof (Zdigits2_bounds m1 Hm1) as [Hlo Hhi]. rewrite Hd1 in Hlo, Hhi.
  change (53 - 1) with 52 in Hlo.
  pose proof (Z.div_mod m (2 ^ n) ltac:(lia)) as Hdm.
  pose proof (Z.mod_pos_bound m (2 ^ n) Hp) as Hmod. rewrite <- Em1 in Hdm.
  set (n2 := Z.max (fexp (Zdigits2 mr + e1) - e1) 0) in *.
  assert (Hdr : 53 <= Zdigits2 mr <= 54).
  { split.
    - rewrite <- Hd1. apply Zdigits2_le. lia.
    - apply (Zdigits2_le_pow mr 53); lia. }
  assert (Hshift : mf * 2 ^ n2 = mr /\ 0 <= n2).
  { destruct (Z.eq_dec (Zdigits2 mr) 53) as [E53|N53].
    - assert (n2 = 0) by (subst n2; rewrite fexp_eq; lia).
      rewrite Emf, H. change (2 ^ 0) with 1. rewrite Z.div_1_r. lia.
    - assert (E54 : Zdigits2 mr = 54) by lia.
      assert (n2 = 1) by (subst n2; rewrite fexp_eq; lia).
      pose proof (Zdigits2_bounds mr ltac:(lia)) as [Hlor _]. rewrite E54 in Hlor.
      change (54 - 1) with 53 in Hlor.
      assert (mr = 2 ^ 53) by lia.
      rewrite Emf, H, H0. split; [reflexivity|lia]. }
  destruct Hshift as [Hshift Hn2].
  assert (Hmf : 0 < mf).
  { assert (0 < 2 ^ n2) by (apply Z.pow_pos_nonneg; lia). nia. }
  exists m1, n, mf, ef. split; [exact Hn|]. split; [exact Hlo|].
  split; [nia|]. split; [nia|]. split; [exact Hmf|]. split; [lia|]. split.
  - replace (ef - e) with (n2 + n) by lia. rewrite Z.pow_add_r by lia.
    rewrite Z.mul_assoc, Hshift. split; nia.
  - change (emax - prec) with 971. destruct mf; try lia. reflexivity.
Qed.

(** A mantissa of at most 53 digits at its canonical exponent is kept. *)
Lemma round_exact sx m e :
  0 < m -> fexp (Zdigits2 m + e) <= e ->
  binary_round_aux prec emax sx m e loc_Exact =
    if e <=? 971 then S754_finite sx (Z.to_pos m) e else S754_infinity sx.
Proof.
  intros Hm Hf. unfold binary_round_aux, shr_fexp.
  assert (Hshr : forall mrs z, z <= 0 -> shr mrs e z = (mrs, e)).
  { intros mrs [|p|p] Hz; try reflexivity. lia. }
  rewrite Hshr by lia. cbn [shr_record_of_loc loc_of_shr_record shr_m shr_r shr_s
    round_nearest_even].
  rewrite Hshr by lia. cbn [shr_record_of_loc shr_m].
  destruct m; try lia. reflexivity.
Qed.

(** *** Mantissa and exponent as a rational number *)

Lemma pow2_pos e : (0 < 2 ^ e)%Q.
Proof. apply Qpower_0_lt. reflexivity. Qed.

Lemma mag_shift m k e : 0 <= k -> (mag (m * 2 ^ k) e == mag m (e + k))%Q.
Proof.
  intros Hk. unfold mag. rewrite inject_Z_mult, Zpower_Qpower by exact Hk.
  change (inject_Z 2) with 2%Q. rewrite Qpower_plus by discriminate. ring.
Qed.

Lemma mag_le m1 m2 e : m1 <= m2 -> (mag m1 e <= mag m2 e)%Q.
Proof.
  intros H. unfold mag. apply Qmult_le_compat_r.
  - rewrite <- Zle_Qle. exact H.
  - apply Qlt_le_weak, pow2_pos.
Qed.

Lemma mag_pos m e : 0 < m -> (0 < mag m e)%Q.
Proof.
  intros H. unfold mag. apply Qmult_lt_0_compat; [|apply pow2_pos].
  replace 0%Q with (inject_Z 0) by reflexivity. rewrite <- Zlt_Qlt. exact H.
Qed.

Lemma mag_add m1 m2 e : (mag (m1 + m2) e == mag m1 e + mag m2 e)%Q.
Proof. unfold mag. rewrite inject_Z_plus. ring. Qed.

Lemma mag_mul m1 e1 m2 e2 : (mag (m1 * m2) (e1 + e2) == mag m1 e1 * mag m2 e2)%Q.
Proof.
  unfold mag. rewrite inject_Z_mult, Qpower_plus by discriminate. ring.
Qed.

Lemma SF2Q_finite m e : SF2Q (S754_finite false m e) = mag (Z.pos m) e.
Proof. reflexivity. Qed.

Lemma slack_nonneg (v : Q) : (0 <= v -> (1 - ulp52) * v <= v <= (1 + ulp52) * v)%Q.
Proof.
  intros Hv. assert (H : (0 <= ulp52 * v)%Q).
  { apply Qmult_le_0_compat; [discriminate|exact Hv]. }
  split; lra.
Qed.

(** *** The error of one rounding *)

(** Rounding a mantissa of at least 53 digits moves a value between it and
    its successor by at most one unit in the last place. *)
Lemma round_error m e l lo hi (v : Q) :
  0 < m -> -1074 <= e -> 53 <= Zdigits2 m ->
  (mag m e <= v <= mag (m + 1) e)%Q ->
  pos_small lo hi (binary_round_aux prec emax false m e l) ->
  ((1 - ulp52) * v <= SF2Q (binary_round_aux prec emax false m e l) <= (1 + ulp52) * v)%Q.
Proof.
  intros Hm He Hd Hv.
  destruct (round_interval false m e l Hm He Hd)
    as (L & n & mf & ef & Hn & HL & Hlo & Hhi & Hmf & Hef & Hr & ->).
  destruct (ef <=? 971); [|intros []]. intros _.
  rewrite SF2Q_finite, Z2Pos.id by exact Hmf.
  assert (ER : (mag mf ef == mag (mf * 2 ^ (ef - e)) e)%Q).
  { rewrite mag_shift by lia. replace (e + (ef - e)) with ef by lia. reflexivity. }
  set (p := (2 ^ (e + n))%Q). assert (Hp : (0 < p)%Q) by apply pow2_pos.
  set (a := inject_Z L).
  assert (Ha : (inject_Z (2 ^ 52) <= a)%Q) by (unfold a; rewrite <- Zle_Qle; exact HL).
  assert (E1 : (mag (L * 2 ^ n) e == a * p)%Q) by (rewrite mag_shift by lia; reflexivity).
  assert (E2 : (mag ((L + 1) * 2 ^ n) e == (a + 1) * p)%Q).
  { rewrite mag_shift by lia. unfold mag. rewrite inject_Z_plus. reflexivity. }
  pose proof (mag_le _ _ e Hlo) as B1. pose proof (mag_le _ _ e Hhi) as B2.
  pose proof (mag_le _ _ e (proj1 Hr)) as B3. pose proof (mag_le _ _ e (proj2 Hr)) as B4.
  rewrite E1 in B1, B3. rewrite E2 in B2, B4. rewrite <- ER in B3, B4.
  destruct Hv as [Hv1 Hv2].
  assert (Hua : (1 <= ulp52 * a)%Q).
  { unfold ulp52. change (inject_Z (2 ^ 52)) with (4503599627370496 # 1) in Ha. lra. }
  assert (Hk : (0 <= (ulp52 * a - 1) * p)%Q).
  { apply Qmult_le_0_compat; lra. }
  assert (Hu : (0 <= ulp52)%Q) by discriminate.
  assert (Hup : (0 <= ulp52 * p)%Q) by (apply Qmult_le_0_compat; lra).
  unfold ulp52 in *. split; lra.
Qed.

(** Rounding the mantissa of a sum or of an integer. *)
Lemma binary_round_error (M : positive) ez lo hi :
  -1074 <= ez ->
  pos_small lo hi (binary_round prec emax false M ez) ->
  ((1 - ulp52) * mag (Z.pos M) ez <= SF2Q (binary_round prec emax false M ez)
     <= (1 + ulp52) * mag (Z.pos M) ez)%Q.
Proof.
  intros Hez. unfold binary_round.
  pose proof (shl_align_spec M ez (SpecFloat.fexp prec emax (Z.pos (digits2_pos M) + ez)))
    as [Hm He].
  change (Z.pos (digits2_pos M)) with (Zdigits2 (Z.pos M)) in *.
  set (E0 := fexp (Zdigits2 (Z.pos M) + ez)) in *.
  destruct (shl_align M ez E0) as [mz ez'] eqn:S. cbn [fst snd] in Hm, He.
  assert (HE0 : -1074 <= E0) by (subst E0; rewrite fexp_eq; lia).
  assert (Hdig : Zdigits2 (Z.pos mz) + ez' = Zdigits2 (Z.pos M) + ez).
  { rewrite Hm, Zdigits2_mul_pow2 by lia. lia. }
  assert (EV : (mag (Z.pos mz) ez' == mag (Z.pos M) ez)%Q).
  { rewrite Hm, mag_shift by lia. replace (ez' + (ez - Z.min ez E0)) with ez by lia.
    reflexivity. }
  assert (HV : (0 <= mag (Z.pos M) ez)%Q) by (apply Qlt_le_weak, mag_pos; lia).
  destruct (Z_lt_le_dec (Zdigits2 (Z.pos mz)) 53) as [Hlt|Hge].
  - (* at most 53 digits at the canonical exponent: no rounding *)
    rewrite round_exact; [| lia |].
    + destruct (ez' <=? 971); [|intros []]. intros _.
      rewrite SF2Q_finite, Pos2Z.id, EV. apply slack_nonneg. exact HV.
    + rewrite Hdig. fold E0. subst E0. rewrite fexp_eq in *. lia.
  - intros Hp. rewrite <- EV.
    apply (round_error (Z.pos mz) ez' loc_Exact lo hi); [lia|lia|exact Hge| |exact Hp].
    split; [apply Qle_refl|apply mag_le; lia].
Qed.

(** The binary64 product of two positive normal numbers. *)
Lemma SFmul_error m1 e1 m2 e2 lo hi :
  Zdigits2 (Z.pos m1) = 53 -> Zdigits2 (Z.pos m2) = 53 -> -1074 <= e1 + e2 ->
  let x := S754_finite false m1 e1 in
  let y := S754_finite false m2 e2 in
  pos_small lo hi (SFmul prec emax x y) ->
  ((1 - ulp52) * (SF2Q x * SF2Q y) <= SF2Q (SFmul prec emax x y)
     <= (1 + ulp52) * (SF2Q x * SF2Q y))%Q.
Proof.
  intros Hd1 Hd2 He x y. subst x y. cbn [SFmul xorb]. rewrite !SF2Q_finite.
  intros Hp. rewrite <- mag_mul. rewrite <- Pos2Z.inj_mul.
  apply (round_error _ _ _ lo hi); [lia|exact He| | |exact Hp].
  - rewrite Pos2Z.inj_mul.
    pose proof (Zdigits2_mul_ge (Z.pos m1) (Z.pos m2) ltac:(lia) ltac:(lia)). lia.
  - split; [apply Qle_refl|apply mag_le; lia].
Qed.

(** The binary64 sum of two positive numbers. *)
Lemma SFadd_error m1 e1 m2 e2 lo hi :
  let x := S754_finite false m1 e1 in
  let y := S754_finite false m2 e2 in
  valid_binary x = true -> valid_binary y = true ->
  pos_small lo hi (SFadd prec emax x y) ->
  ((1 - ulp52) * (SF2Q x + SF2Q y) <= SF2Q (SFadd prec emax x y)
     <= (1 + ulp52) * (SF2Q x + SF2Q y))%Q.
Proof.
  intros x y V1 V2. subst x y. unfold SFadd. cbn [cond_Zopp]. rewrite !SF2Q_finite.
  pose proof (valid_finite_bounds _ _ _ V1) as (He1 & _).
  pose proof (valid_finite_bounds _ _ _ V2) as (He2 & _).
  set (ez := Z.min e1 e2).
  pose proof (shl_align_spec m1 e1 ez) as [A1 _].
  pose proof (shl_align_spec m2 e2 ez) as [A2 _].
  rewrite Z.min_r in A1 by (subst ez; lia). rewrite Z.min_r in A2 by (subst ez; lia).
  set (a1 := fst (shl_align m1 e1 ez)) in *. set (a2 := fst (shl_align m2 e2 ez)) in *.
  change (Z.pos a1 + Z.pos a2) with (Z.pos (a1 + a2)). cbn [binary_normalize].
  intros Hp.
  assert (EV : (mag (Z.pos (a1 + a2)) ez == mag (Z.pos m1) e1 + mag (Z.pos m2) e2)%Q).
  { rewrite Pos2Z.inj_add, mag_add, A1, A2, !mag_shift by (subst ez; lia).
    replace (ez + (e1 - ez)) with e1 by lia. replace (ez + (e2 - ez)) with e2 by lia.
    reflexivity. }
  rewrite <- EV. apply (binary_round_error _ _ lo hi); [subst ez; lia|exact Hp].
Qed.

(** The binary64 quotient of two positive normal numbers. *)
Lemma SFdiv_error m1 e1 m2 e2 lo hi :
  Zdigits2 (Z.pos m1) = 53 -> Zdigits2 (Z.pos m2) = 53 -> -1074 <= e1 - e2 - 53 ->
  let x := S754_finite false m1 e1 in
  let y := S754_finite false m2 e2 in
  pos_small lo hi (SFdiv prec emax x y) ->
  ((1 - ulp52) * (SF2Q x / SF2Q y) <= SF2Q (SFdiv prec emax x y)
     <= (1 + ulp52) * (SF2Q x / SF2Q y))%Q.
Proof.
  intros Hd1 Hd2 He x y. subst x y. cbn [SFdiv xorb]. unfold SFdiv_core_binary.
  rewrite Hd1, Hd2, !SF2Q_finite.
  set (e' := Z.min (SpecFloat.fexp prec emax (53 + e1 - (53 + e2))) (e1 - e2)).
  assert (He' : e' = e1 - e2 - 53). { subst e'. rewrite fexp_eq. lia. }
  set (s := e1 - e2 - e').
  assert (Hs53 : s = 53) by (subst s; lia).
  set (m' := match s with Z.pos _ => Z.shiftl (Z.pos m1) s | 0 => Z.pos m1 | Z.neg _ => 0 end).
  assert (Hm' : m' = Z.pos m1 * 2 ^ 53).
  { subst m'. rewrite Hs53. apply Z.shiftl_mul_pow2. lia. }
  clearbody m'. subst m'.
  pose proof (Z.div_eucl_eq (Z.pos m1 * 2 ^ 53) (Z.pos m2) ltac:(lia)) as Hdiv.
  pose proof (Z.mod_pos_bound (Z.pos m1 * 2 ^ 53) (Z.pos m2) ltac:(lia)) as Hmod.
  unfold Z.modulo in Hmod.
  destruct (Z.div_eucl (Z.pos m1 * 2 ^ 53) (Z.pos m2)) as [q r].
  pose proof (Zdigits2_bounds (Z.pos m1) ltac:(lia)) as [B1 _].
  pose proof (Zdigits2_bounds (Z.pos m2) ltac:(lia)) as [_ B2].
  rewrite Hd1 in B1. rewrite Hd2 in B2.
  change (2 ^ (53 - 1)) with 4503599627370496 in B1.
  change (2 ^ 53) with 9007199254740992 in *.
  assert (Hq : 4503599627370496 <= q) by nia.
  intros Hp.
  apply (round_error q e' _ lo hi); [lia|lia| | |exact Hp].
  - change 53 with (Zdigits2 4503599627370496). apply Zdigits2_le. lia.
  - (* the quotient lies between q and q + 1 at exponent e' *)
    assert (Hy : (0 < mag (Z.pos m2) e2)%Q) by (apply mag_pos; lia).
    assert (EQ : (mag (Z.pos m1) e1 == mag (Z.pos m1 * 9007199254740992) e' * 2 ^ e2)%Q).
    { change 9007199254740992 with (2 ^ 53). rewrite mag_shift by lia. unfold mag.
      rewrite <- Qmult_assoc, <- Qpower_plus by discriminate.
      replace (e' + 53 + e2) with e1 by lia. reflexivity. }
    assert (Hlo : (mag (q * Z.pos m2) e' <= mag (Z.pos m1 * 9007199254740992) e')%Q)
      by (apply mag_le; lia).
    assert (Hhi : (mag (Z.pos m1 * 9007199254740992) e' <= mag ((q + 1) * Z.pos m2) e')%Q)
      by (apply mag_le; nia).
    assert (E1 : (mag (q * Z.pos m2) e' * 2 ^ e2 == mag q e' * mag (Z.pos m2) e2)%Q)
      by (unfold mag; rewrite inject_Z_mult; ring).
    assert (E2 : (mag ((q + 1) * Z.pos m2) e' * 2 ^ e2 == mag (q + 1) e' * mag (Z.pos m2) e2)%Q)
      by (unfold mag; rewrite inject_Z_mult; ring).
    pose proof (pow2_pos e2) as Hp2.
    split.
    + apply Qle_shift_div_l; [exact Hy|]. rewrite <- E1, EQ.
      apply Qmult_le_compat_r; [exact Hlo|lra].
    + apply Qle_shift_div_r; [exact Hy|]. rewrite <- E2, EQ.
      apply Qmult_le_compat_r; [exact Hhi|lra].
Qed.

(** *** Operations on approximations *)

Lemma mul_le_mul (a b c d : Q) : (0 <= a <= c -> 0 <= b <= d -> a * b <= c * d)%Q.
Proof. intros [Ha Hac] [Hb Hbd]. nra. Qed.

Lemma div_le_div (a b c d : Q) : (0 <= a <= c -> 0 < d <= b -> a / b <= c / d)%Q.
Proof.
  intros [Ha Hac] [Hd Hdb]. apply ExactFacts.Qdiv_le_cross; [lra|lra|]. nra.
Qed.

Lemma approx_weaken lo hi alpha beta lo' hi' alpha' beta' f r :
  approx lo hi alpha beta f r ->
  lo' <= lo -> hi <= hi' -> (alpha' <= alpha)%Q -> (beta <= beta')%Q ->
  approx lo' hi' alpha' beta' f r.
Proof.
  intros [Hz | (Hp & Hr & Hlo & Hhi)] H1 H2 H3 H4; [left; exact Hz|right].
  split; [exact (pos_small_le _ _ _ _ _ Hp H1 H2)|]. split; [exact Hr|].
  assert ((alpha' * r <= alpha * r)%Q) by (apply Qmult_le_compat_r; lra).
  assert ((beta * r <= beta' * r)%Q) by (apply Qmult_le_compat_r; lra).
  split; lra.
Qed.

Lemma approx_small lo hi alpha beta f r :
  approx lo hi alpha beta f r -> small hi (Prim2SF f).
Proof.
  intros [[Hz _] | (Hp & _)]; [|exact (pos_small_small _ _ _ Hp)].
  destruct (Prim2SF f); try (destruct Hz; fail). exact I.
Qed.

Lemma approx_pos lo hi alpha beta f r :
  approx lo hi alpha beta f r -> (0 < r)%Q ->
  pos_small lo hi (Prim2SF f) /\ (alpha * r <= B2Q f <= beta * r)%Q.
Proof.
  intros [[_ Hz] | (Hp & _ & Hb)] Hr; [|split; assumption].
  rewrite Hz in Hr. exfalso. exact (Qlt_irrefl 0 Hr).
Qed.

Lemma pos_small_normal lo hi f :
  pos_small lo hi (Prim2SF f) -> -1074 < lo ->
  exists m e, Prim2SF f = S754_finite false m e /\ Zdigits2 (Z.pos m) = 53 /\
    lo <= e /\ 53 + e <= hi /\ valid_binary (S754_finite false m e) = true.
Proof.
  intros Hp Hlo. pose proof (Prim2SF_valid f) as V.
  destruct (Prim2SF f) as [| | |[|] m e]; try (destruct Hp; fail).
  cbn [pos_small] in Hp. pose proof (valid_finite_bounds _ _ _ V) as (_ & _ & Hd).
  specialize (Hd ltac:(lia)). exists m, e. repeat split; try lia. exact V.
Qed.

Lemma B2Q_pos lo hi f : pos_small lo hi (Prim2SF f) -> (0 < B2Q f)%Q.
Proof.
  unfold B2Q. destruct (Prim2SF f) as [| | |[|] m e]; try (intros []; fail).
  intros _. rewrite SF2Q_finite. apply mag_pos. lia.
Qed.

Lemma approx_of_int z k :
  0 <= z < 2 ^ k -> k <= 969 ->
  approx (-52) (k + 1) (1 - ulp52) (1 + ulp52) (double_of_int z) (inject_Z z).
Proof.
  intros Hz Hk. destruct (Z.eq_dec z 0) as [->|Hne].
  - left. split; [exact I|reflexivity].
  - right. pose proof (of_int_pos z k ltac:(lia) Hk) as Hp.
    split; [exact Hp|]. split.
    + replace 0%Q with (inject_Z 0) by reflexivity. rewrite <- Zlt_Qlt. lia.
    + unfold B2Q. rewrite Prim2SF_of_int in Hp |- *.
      destruct z as [|M|M]; try lia. cbn [binary_normalize] in Hp |- *.
      assert (E : (inject_Z (Z.pos M) == mag (Z.pos M) 0)%Q) by (unfold mag; ring).
      rewrite E. apply (binary_round_error M 0 _ _ ltac:(lia) Hp).
Qed.

Lemma approx_mul lo1 hi1 a1 b1 lo2 hi2 a2 b2 f g r s :
  approx lo1 hi1 a1 b1 f r -> approx lo2 hi2 a2 b2 g s ->
  -1074 < lo1 -> -1074 < lo2 -> -1074 <= lo1 + lo2 -> -1074 <= hi1 + hi2 <= 970 ->
  (0 <= a1)%Q -> (0 <= a2)%Q ->
  approx (lo1 + lo2) (hi1 + hi2 + 1) (a1 * a2 * (1 - ulp52)) (b1 * b2 * (1 + ulp52))
    (f * g)%float (r * s)%Q.
Proof.
  intros Hf Hg Hl1 Hl2 Hlo Hhi Ha1 Ha2.
  pose proof (approx_small _ _ _ _ _ _ Hf) as Sf.
  pose proof (approx_small _ _ _ _ _ _ Hg) as Sg.
  destruct Hf as [[Zf Er] | (Pf & Hr & Bf)].
  { left. split; [exact (fmul_zero_l _ _ _ Zf Sg)|]. rewrite Er. ring. }
  destruct Hg as [[Zg Es] | (Pg & Hs & Bg)].
  { left. split; [exact (fmul_zero_r _ _ _ Sf Zg)|]. rewrite Es. ring. }
  right. pose proof (fmul_pos _ _ _ _ _ _ Pf Pg Hlo Hhi) as Pp.
  split; [exact Pp|]. split; [apply Qmult_lt_0_compat; assumption|].
  pose proof (B2Q_pos _ _ _ Pf) as Hf0. pose proof (B2Q_pos _ _ _ Pg) as Hg0.
  destruct (pos_small_normal _ _ _ Pf Hl1) as (m1 & e1 & E1 & D1 & L1 & _).
  destruct (pos_small_normal _ _ _ Pg Hl2) as (m2 & e2 & E2 & D2 & L2 & _).
  unfold B2Q in *. rewrite mul_spec in Pp |- *. unfold SF64mul in *.
  rewrite E1, E2 in *.
  pose proof (SFmul_error m1 e1 m2 e2 _ _ D1 D2 ltac:(lia) Pp) as [Elo Ehi].
  set (A := SF2Q (S754_finite false m1 e1)) in *.
  set (B := SF2Q (S754_finite false m2 e2)) in *.
  set (P := SF2Q (SFmul prec emax (S754_finite false m1 e1) (S754_finite false m2 e2))) in *.
  assert (H1 : (a1 * r * (a2 * s) <= A * B)%Q).
  { apply mul_le_mul; (split; [apply Qmult_le_0_compat; lra|lra]). }
  assert (H2 : (A * B <= b1 * r * (b2 * s))%Q).
  { apply mul_le_mul; split; lra. }
  unfold ulp52 in *. split.
  - assert (E : (a1 * a2 * (1 - (1 # 4503599627370496)) * (r * s) ==
                (1 - (1 # 4503599627370496)) * (a1 * r * (a2 * s)))%Q) by ring.
    rewrite E. lra.
  - assert (E : (b1 * b2 * (1 + (1 # 4503599627370496)) * (r * s) ==
                (1 + (1 # 4503599627370496)) * (b1 * r * (b2 * s)))%Q) by ring.
    rewrite E. lra.
Qed.

Lemma approx_add lo hi a b f g r s :
  approx lo hi a b f r -> approx lo hi a b g s ->
  -1074 <= hi <= 969 -> (0 <= a)%Q -> (0 <= b)%Q ->
  approx lo (hi + 2) (a * (1 - ulp52)) (b * (1 + ulp52)) (f + g)%float (r + s)%Q.
Proof.
  intros Hf Hg Hhi Ha Hb.
  assert (Hw : forall h t, approx lo hi a b h t ->
            approx lo (hi + 2) (a * (1 - ulp52)) (b * (1 + ulp52)) h t).
  { intros h t H. apply (approx_weaken _ _ _ _ _ _ _ _ _ _ H); try lia;
      unfold ulp52; nra. }
  pose proof (approx_small _ _ _ _ _ _ Hg) as Sg.
  destruct Hf as [[Zf Er] | (Pf & Hr & Bf)].
  { (* the first term is a zero *)
    destruct Hg as [[Zg Es] | (Pg & Hs & Bg)].
    - left. split; [exact (fadd_zero _ _ Zf Zg)|]. rewrite Er, Es. reflexivity.
    - assert (E : Prim2SF (f + g) = Prim2SF g).
      { rewrite add_spec. unfold SF64add.
        destruct (Prim2SF f) as [sf| | |]; try (destruct Zf; fail).
        destruct (Prim2SF g) as [| | |[|] m e]; try (destruct Pg; fail). reflexivity. }
      assert (Hg' : approx lo hi a b (f + g)%float (r + s)%Q).
      { right. unfold B2Q in *. rewrite E. split; [exact Pg|]. split; [lra|].
        rewrite Er, Qplus_0_l. exact Bg. }
      exact (Hw _ _ Hg'). }
  destruct Hg as [[Zg Es] | (Pg & Hs & Bg)].
  { assert (E : Prim2SF (f + g) = Prim2SF f).
    { rewrite add_spec. unfold SF64add.
      destruct (Prim2SF g) as [sg| | |]; try (destruct Zg; fail).
      destruct (Prim2SF f) as [| | |[|] m e]; try (destruct Pf; fail). reflexivity. }
    assert (Hf' : approx lo hi a b (f + g)%float (r + s)%Q).
    { right. unfold B2Q in *. rewrite E. split; [exact Pf|]. split; [lra|].
      rewrite Es, Qplus_0_r. exact Bf. }
    exact (Hw _ _ Hf'). }
  right. pose proof (fadd_pos_l lo hi hi f g Pf Sg ltac:(lia) Hhi) as Pp.
  split; [exact Pp|]. split; [lra|].
  pose proof (Prim2SF_valid f) as Vf. pose proof (Prim2SF_valid g) as Vg.
  unfold B2Q in *. rewrite add_spec in Pp |- *. unfold SF64add in *.
  destruct (Prim2SF f) as [| | |[|] m1 e1]; try (destruct Pf; fail).
  destruct (Prim2SF g) as [| | |[|] m2 e2]; try (destruct Pg; fail).
  pose proof (SFadd_error m1 e1 m2 e2 _ _ Vf Vg Pp) as [Elo Ehi].
  set (A := SF2Q (S754_finite false m1 e1)) in *.
  set (B := SF2Q (S754_finite false m2 e2)) in *.
  set (S := SF2Q (SFadd prec emax (S754_finite false m1 e1) (S754_finite false m2 e2))) in *.
  unfold ulp52 in *. split.
  - assert (E : (a * (1 - (1 # 4503599627370496)) * (r + s) ==
                (1 - (1 # 4503599627370496)) * (a * r + a * s))%Q) by ring.
    rewrite E. lra.
  - assert (E : (b * (1 + (1 # 4503599627370496)) * (r + s) ==
                (1 + (1 # 4503599627370496)) * (b * r + b * s))%Q) by ring.
    rewrite E. lra.
Qed.

Lemma approx_div lo1 hi1 a1 b1 lo2 hi2 a2 b2 f g r s :
  approx lo1 hi1 a1 b1 f r -> approx lo2 hi2 a2 b2 g s -> (0 < s)%Q ->
  -1074 < lo1 -> -1074 < lo2 ->
  -1074 <= lo1 - hi2 -> -1074 <= hi1 - hi2 + 1 -> hi1 - lo2 - 52 <= 970 ->
  (0 <= a1)%Q -> (0 < a2)%Q -> (0 < b2)%Q ->
  approx (lo1 - hi2) (hi1 - lo2 - 51) (a1 / b2 * (1 - ulp52)) (b1 / a2 * (1 + ulp52))
    (f / g)%float (r / s)%Q.
Proof.
  intros Hf Hg Hs Hl1 Hl2 Hlo Hhi1 Hhi2 Ha1 Ha2 Hb2.
  destruct (approx_pos _ _ _ _ _ _ Hg Hs) as [Pg Bg].
  destruct (pos_small_normal _ _ _ Pg Hl2) as (m2 & e2 & E2 & D2 & L2 & U2 & V2).
  pose proof (B2Q_pos _ _ _ Pg) as Hg0.
  destruct Hf as [[Zf Er] | (Pf & Hr & Bf)].
  { left. split; [exact (fdiv_zero_l _ _ _ _ E2 Zf)|]. rewrite Er. unfold Qdiv. ring. }
  right.
  pose proof (fdiv_pos lo1 hi1 f g m2 e2 E2 Pf Hl1 D2 ltac:(lia) ltac:(lia)) as Pp.
  split; [apply (pos_small_le (lo1 - e2 - 53) (hi1 - (53 + e2) + 2)); [exact Pp|lia|lia]|].
  split; [apply Qlt_shift_div_l; lra|].
  pose proof (B2Q_pos _ _ _ Pf) as Hf0.
  destruct (pos_small_normal _ _ _ Pf Hl1) as (m1 & e1 & E1 & D1 & L1 & _).
  unfold B2Q in *. rewrite div_spec in Pp |- *. unfold SF64div in *.
  rewrite E1, E2 in *.
  pose proof (SFdiv_error m1 e1 m2 e2 _ _ D1 D2 ltac:(lia) Pp) as [Elo Ehi].
  set (A := SF2Q (S754_finite false m1 e1)) in *.
  set (B := SF2Q (S754_finite false m2 e2)) in *.
  set (P := SF2Q (SFdiv prec emax (S754_finite false m1 e1) (S754_finite false m2 e2))) in *.
  assert (Har : (0 <= a1 * r)%Q) by (apply Qmult_le_0_compat; lra).
  assert (Has : (0 < a2 * s)%Q) by (apply Qmult_lt_0_compat; lra).
  assert (Hbs : (0 < b2 * s)%Q) by (apply Qmult_lt_0_compat; lra).
  assert (H1 : (a1 * r / (b2 * s) <= A / B)%Q) by (apply div_le_div; split; lra).
  assert (H2 : (A / B <= b1 * r / (a2 * s))%Q) by (apply div_le_div; split; lra).
  unfold ulp52 in *. split.
  - assert (E : (a1 / b2 * (1 - (1 # 4503599627370496)) * (r / s) ==
                (1 - (1 # 4503599627370496)) * (a1 * r / (b2 * s)))%Q) by (field; lra).
    rewrite E. lra.
  - assert (E : (b1 / a2 * (1 + (1 # 4503599627370496)) * (r / s) ==
                (1 + (1 # 4503599627370496)) * (b1 * r / (a2 * s)))%Q) by (field; lra).
    rewrite E. lra.
Qed.

Lemma approx_bounds lo hi alpha beta f r :
  approx lo hi alpha beta f r -> (alpha * r <= B2Q f <= beta * r)%Q.
Proof.
  intros [[Hz Er] | (_ & _ & Hb)]; [|exact Hb].
  unfold B2Q. destruct (Prim2SF f); try (destruct Hz; fail).
  cbn [SF2Q]. rewrite Er. split; ring_simplify; apply Qle_refl.
Qed.

(** *** The error of GuessVerificationProgress *)

Section Error.
Import ExactModel.
Variables (Tc tc rate now x t : Z) (fast : bool).
Hypothesis HTc : 0 <= Tc < 2 ^ 31.
Hypothesis Htc : 0 <= tc < 2 ^ 32.
Hypothesis Hrate : 0 <= rate < 2 ^ 31.
Hypothesis Hx : 0 <= x < 2 ^ 64.
Hypothesis Ht : 0 <= t < 2 ^ 32.
Hypothesis Hnow : - 2 ^ 63 + 2 ^ 32 <= now < 2 ^ 63.

Let F : float := if fast then double_of_int 5 else double_of_int 1.
Let R : float := double_of_int rate.

Ltac closed_Q := vm_compute; discriminate.

(** [H] is weakened to the exponent range and the error bounds of [H']. *)
Ltac same_bounds H H' :=
  match type of H' with
  | approx ?lo ?hi ?a ?b _ _ =>
      match type of H with
      | approx ?lo0 ?hi0 ?a0 ?b0 ?f ?r =>
          let K := fresh in
          assert (K : approx lo hi a b f r)
            by (apply (approx_weaken lo0 hi0 a0 b0 lo hi a b f r H);
                [lia|lia|closed_Q|closed_Q]);
          clear H; rename K into H
      end
  end.

Lemma factor_approx :
  approx (-52) 4 (1 - ulp52) (1 + ulp52) F (factor fast).
Proof.
  subst F. unfold factor. destruct fast; apply (approx_of_int _ 3); lia.
Qed.

(** The expensive work left: days times rate times factor, after six
    roundings and a division by a rounded constant. *)
Lemma expensive_approx delta :
  0 <= delta < 2 ^ 64 ->
  approx (-174) 104
    ((1 - ulp52) / (1 + ulp52) * (1 - ulp52) * (1 - ulp52) * (1 - ulp52)
       * (1 - ulp52) * (1 - ulp52))
    ((1 + ulp52) / (1 - ulp52) * (1 + ulp52) * (1 + ulp52) * (1 + ulp52)
       * (1 + ulp52) * (1 + ulp52))
    (double_of_int delta / double_of_int 86400 * R * F)%float
    (inject_Z delta / inject_Z 86400 * inject_Z rate * factor fast)%Q.
Proof.
  intros Hd.
  pose proof (approx_of_int delta 64 Hd ltac:(lia)) as H1.
  pose proof (approx_of_int 86400 17 ltac:(lia) ltac:(lia)) as H2.
  pose proof (approx_div _ _ _ _ _ _ _ _ _ _ _ _ H1 H2 ltac:(reflexivity)
                ltac:(lia) ltac:(lia) ltac:(lia) ltac:(lia) ltac:(lia)
                ltac:(closed_Q) ltac:(reflexivity) ltac:(reflexivity)) as H3.
  pose proof (approx_of_int rate 31 Hrate ltac:(lia)) as H4.
  pose proof (approx_mul _ _ _ _ _ _ _ _ _ _ _ _ H3 H4
                ltac:(lia) ltac:(lia) ltac:(lia) ltac:(lia)
                ltac:(closed_Q) ltac:(closed_Q)) as H5.
  pose proof (approx_mul _ _ _ _ _ _ _ _ _ _ _ _ H5 factor_approx
                ltac:(lia) ltac:(lia) ltac:(lia) ltac:(lia)
                ltac:(closed_Q) ltac:(closed_Q)) as H6.
  apply (approx_weaken _ _ _ _ _ _ _ _ _ _ H6); try lia; closed_Q.
Qed.

Hypothesis HA : x <= Tc -> tc <= now.
Hypothesis HB : Tc < x -> t <= now.
Hypothesis Hden :
  (0 < work_before Tc x fast + work_after Tc tc (inject_Z rate) now x t fast)%Q.

(** The binary64 result is the quotient of the two amounts of work up to
    one part in [2 ^ 48]. *)
Lemma spec_progress_error :
  let q := (work_before Tc x fast /
            (work_before Tc x fast + work_after Tc tc (inject_Z rate) now x t fast))%Q in
  ((1 - (1 # 2 ^ 48)) * q <= B2Q (spec_progress (D := float) Tc tc R now x t fast)
     <= (1 + (1 # 2 ^ 48)) * q)%Q.
Proof.
  revert Hden. unfold spec_progress, work_before, work_after.
  cbn [of_int fadd fmul fdiv binary64]. fold F.
  destruct (x <=? Tc) eqn:E; intros Hd; cbv zeta.
  - apply Z.leb_le in E. specialize (HA E).
    pose proof (approx_of_int x 31 ltac:(lia) ltac:(lia)) as Hwb.
    pose proof (approx_of_int (Tc - x) 31 ltac:(lia) ltac:(lia)) as Hcheap.
    pose proof (expensive_approx (now - tc) ltac:(lia)) as Hexp.
    same_bounds Hcheap Hexp.
    pose proof (approx_add _ _ _ _ _ _ _ _ Hcheap Hexp
                  ltac:(lia) ltac:(closed_Q) ltac:(closed_Q)) as Hwa.
    pose proof Hwb as Hwb'. same_bounds Hwb' Hwa.
    pose proof (approx_add _ _ _ _ _ _ _ _ Hwb' Hwa
                  ltac:(lia) ltac:(closed_Q) ltac:(closed_Q)) as Hsum.
    pose proof (approx_div _ _ _ _ _ _ _ _ _ _ _ _ Hwb Hsum Hd
                  ltac:(lia) ltac:(lia) ltac:(lia) ltac:(lia) ltac:(lia)
                  ltac:(closed_Q) ltac:(reflexivity) ltac:(reflexivity)) as Hq.
    apply (approx_bounds (-52 - 108) (32 - -174 - 51)).
    apply (approx_weaken _ _ _ _ _ _ _ _ _ _ Hq); [lia|lia|closed_Q|closed_Q].
  - apply Z.leb_gt in E. specialize (HB E).
    pose proof (approx_of_int Tc 31 ltac:(lia) ltac:(lia)) as HcT.
    pose proof (approx_of_int (x - Tc) 64 ltac:(lia) ltac:(lia)) as Hnb.
    pose proof (approx_mul _ _ _ _ _ _ _ _ _ _ _ _ Hnb factor_approx
                  ltac:(lia) ltac:(lia) ltac:(lia) ltac:(lia)
                  ltac:(closed_Q) ltac:(closed_Q)) as Hp.
    same_bounds HcT Hp.
    pose proof (approx_add _ _ _ _ _ _ _ _ HcT Hp
                  ltac:(lia) ltac:(closed_Q) ltac:(closed_Q)) as Hwb.
    pose proof (expensive_approx (now - t) ltac:(lia)) as Hexp.
    pose proof Hwb as Hwb'. same_bounds Hwb' Hexp.
    pose proof (approx_add _ _ _ _ _ _ _ _ Hwb' Hexp
                  ltac:(lia) ltac:(closed_Q) ltac:(closed_Q)) as Hsum.
    pose proof (approx_div _ _ _ _ _ _ _ _ _ _ _ _ Hwb Hsum Hd
                  ltac:(lia) ltac:(lia) ltac:(lia) ltac:(lia) ltac:(lia)
                  ltac:(closed_Q) ltac:(reflexivity) ltac:(reflexivity)) as Hq.
    apply (approx_bounds (-52 + -52 - (104 + 2)) (65 + 4 + 1 + 2 - -174 - 51)).
    apply (approx_weaken _ _ _ _ _ _ _ _ _ _ Hq); [lia|lia|closed_Q|closed_Q].
Qed.

End Error.

End Binary64Error.

(** C3, as stated, fails: on the Regtest network (all-zero profile) the
    progress of the genesis block index is 0/0, which is NaN and not a
    number of [0,1]; the division is not guarded. *)
Lemma GuessVerificationProgress_regtest_genesis :
  let env := {| fEnabled := true; NetworkID := REGTEST; clock := 1500000000 |} in
  let genesis := {| nChainTx := 0; nTime := 1296688602 |} in
  GuessVerificationProgress (D := float) env (Some genesis) false = nan /\
  in_unit_interval (GuessVerificationProgress env (Some genesis) false) = false /\
  GuessVerificationProgress (D := exact) env (Some genesis) false = Undefined.
Proof. cbv zeta. split; [|split]; vm_compute; reflexivity. Qed.

(** The zero-rate profile gives NaN for every block index without
    transactions, at every clock value and for both values of fSigchecks. *)
Lemma GuessVerificationProgress_regtest_nan (env : Env) (pindex : CBlockIndex)
    (fSigchecks : bool) :
  NetworkID env <> TESTNET -> NetworkID env <> MAIN -> nChainTx pindex = 0 ->
  GuessVerificationProgress (D := float) env (Some pindex) fSigchecks = nan.
Proof.
  intros Ht Hm Hx. unfold GuessVerificationProgress.
  rewrite (Checkpoints_neither env Ht Hm), Hx.
  cbn [nTransactionsLastCheckpoint nTimeLastCheckpoint fTransactionsPerDay dataRegtest].
  change (0 <=? Int.u64_of_i64 0) with true. cbv iota beta.
  change (Int.sub_u64 (Int.u64_of_i64 0) 0) with 0.
  change (of_int 0) with 0%float. cbn [fdiv fadd fmul binary64].
  destruct fSigchecks; eapply Binary64Facts.zero_denominator; vm_compute; reflexivity.
Qed.

(** C3, amended. The division is not guarded. For a present block index
    whose members fit their types and a clock value in range, when no time
    difference is negative (the clock is not before the last checkpoint's
    time in Case A, the block's time is not after the clock in Case B), the
    binary64 result is NaN exactly where workBefore + workAfter is zero,
    that is, where txCount = 0, Tc = 0 and either R = 0 or now = tc; in
    every other case it is a number of [0,1]. And on the zero-rate Regtest
    profile a block index without transactions gives NaN at every clock
    value, for both values of fSigchecks. *)
Theorem GuessVerificationProgress_range (env : Env) (pindex : CBlockIndex)
    (fSigchecks : bool) :
  let profile := Checkpoints (D := float) env in
  let Tc := nTransactionsLastCheckpoint profile in
  let tc := nTimeLastCheckpoint profile in
  let r := GuessVerificationProgress env (Some pindex) fSigchecks in
  (wf_Env env -> wf_CBlockIndex pindex ->
   (nChainTx pindex <= Tc -> tc <= clock env) ->
   (Tc < nChainTx pindex -> nTime pindex <= clock env) ->
   if Binary64.zero_work Tc tc (fTransactionsPerDay profile) (clock env)
        (nChainTx pindex)
   then r = nan else in_unit_interval r = true) /\
  (NetworkID env <> TESTNET -> NetworkID env <> MAIN -> nChainTx pindex = 0 ->
   r = nan).
Proof.
  intros profile Tc tc r. split.
  - intros Henv Hp HA HB. subst r.
    rewrite (GuessVerificationProgress_unfold env pindex fSigchecks Henv Hp).
    fold profile Tc tc.
    destruct (profile_bounds (D := float) env) as [HTc Htc]. fold profile Tc tc in HTc, Htc.
    destruct Hp as [Hx Ht]. unfold Int.in_unsigned in Hx, Ht. unfold wf_Env in Henv.
    assert (Hrate : exists rate, 0 <= rate < 2 ^ 31 /\
                      fTransactionsPerDay profile = double_of_int rate).
    { subst profile.
      destruct (Checkpoints_cases (D := float) env) as [[_ ->] | [[_ ->] | (_ & _ & ->)]];
        [exists 960|exists 960|exists 0]; (split; [lia|reflexivity]). }
    destruct Hrate as (rate & Hrate & ->).
    rewrite (Binary64Facts.zero_work_of_int Tc tc rate _ _ Hrate).
    apply Binary64Facts.spec_progress_range; assumption.
  - exact (GuessVerificationProgress_regtest_nan env pindex fSigchecks).
Qed.

Lemma GuessVerificationProgress_range_witness :
  in_unit_interval
    (GuessVerificationProgress (D := float)
       {| fEnabled := true; NetworkID := MAIN; clock := 1500000000 |}
       (Some {| nChainTx := 1200000; nTime := 1495000000 |}) true) = true /\
  GuessVerificationProgress (D := float)
    {| fEnabled := true; NetworkID := TESTNET; clock := 1388868139 |}
    (Some {| nChainTx := 0; nTime := 1388868139 |}) false = nan.
Proof.
  split.
  - refine (proj1 (GuessVerificationProgress_range
                     {| fEnabled := true; NetworkID := MAIN; clock := 1500000000 |}
                     {| nChainTx := 1200000; nTime := 1495000000 |} true) _ _ _ _).
    + well_formed.
    + well_formed.
    + intros _. vm_compute. discriminate.
    + intros _. cbn [nTime clock]. lia.
  - refine (proj1 (GuessVerificationProgress_range
                     {| fEnabled := true; NetworkID := TESTNET; clock := 1388868139 |}
                     {| nChainTx := 0; nTime := 1388868139 |} false) _ _ _ _).
    + well_formed.
    + well_formed.
    + intros _. vm_compute. discriminate.
    + intros H. vm_compute in H. discriminate H.
Defined.

(** ** The order of two results

    The quotient of the two amounts of work is non-decreasing in the
    transaction count when the times are in order; the binary64 result
    follows it within the rounding error. *)

Module IdealOrder.
Import ExactFacts.
Local Open Scope Q_scope.

Section Order.
Variables (Tc tc : Z) (R : Q) (now : Z) (fastMode : bool).
Hypothesis HTc : (0 <= Tc)%Z.
Hypothesis HR : 0 <= R.



End Order.
End IdealOrder.

(** The profile is the same in both arithmetics, and its rate an integer. *)
Lemma profile_rates (env : Env) :
  exists rate, 0 <= rate < 2 ^ 31 /\
    fTransactionsPerDay (Checkpoints (D := float) env) = double_of_int rate /\
    fTransactionsPerDay (Checkpoints (D := exact) env) = Exact (inject_Z rate) /\
    nTransactionsLastCheckpoint (Checkpoints (D := exact) env) =
      nTransactionsLastCheckpoint (Checkpoints (D := float) env) /\
    nTimeLastCheckpoint (Checkpoints (D := exact) env) =
      nTimeLastCheckpoint (Checkpoints (D := float) env) /\
    (PrimFloat.ltb 0 (fTransactionsPerDay (Checkpoints (D := float) env)) = true <->
     0 < rate).
Proof.
  unfold Checkpoints.
  destruct (decide (NetworkID env = TESTNET)) as [Ht|Ht];
    [|destruct (decide (NetworkID env = MAIN)) as [Hm|Hm]].
  - exists 960. split; [lia|]. do 4 (split; [reflexivity|]).
    split; [intros _; lia|intros _; vm_compute; reflexivity].
  - exists 960. split; [lia|]. do 4 (split; [reflexivity|]).
    split; [intros _; lia|intros _; vm_compute; reflexivity].
  - exists 0. split; [lia|]. do 4 (split; [reflexivity|]).
    split; [intros H; vm_compute in H; discriminate H|intros H; lia].
Qed.

(** The binary64 result against the quotient of the two amounts of work. *)
Lemma GuessVerificationProgress_near (env : Env) (pindex : CBlockIndex)
    (fSigchecks : bool) (rate : Z) :
  let profile := Checkpoints (D := float) env in
  let Tc := nTransactionsLastCheckpoint profile in
  let tc := nTimeLastCheckpoint profile in
  let wb := work_before Tc (nChainTx pindex) fSigchecks in
  let wa := work_after Tc tc (inject_Z rate) (clock env) (nChainTx pindex)
              (nTime pindex) fSigchecks in
  wf_Env env -> wf_CBlockIndex pindex ->
  0 <= rate < 2 ^ 31 -> fTransactionsPerDay profile = double_of_int rate ->
  (nChainTx pindex <= Tc -> tc <= clock env) ->
  (Tc < nChainTx pindex -> nTime pindex <= clock env) ->
  (0 < wb + wa)%Q ->
  in_unit_interval (GuessVerificationProgress env (Some pindex) fSigchecks) = true /\
  ((1 - (1 # 2 ^ 48)) * (wb / (wb + wa))
     <= B2Q (GuessVerificationProgress env (Some pindex) fSigchecks)
     <= (1 + (1 # 2 ^ 48)) * (wb / (wb + wa)))%Q.
Proof.
  intros profile Tc tc wb wa Henv Hp Hrate Er HA HB Hden.
  rewrite (GuessVerificationProgress_unfold env pindex fSigchecks Henv Hp).
  fold profile Tc tc. rewrite Er.
  destruct (profile_bounds (D := float) env) as [HTc Htc]. fold profile Tc tc in HTc, Htc.
  destruct Hp as [Hx Ht]. unfold Int.in_unsigned in Hx, Ht. unfold wf_Env in Henv.
  split.
  - pose proof (Binary64Facts.spec_progress_range Tc tc rate (clock env) (nChainTx pindex)
                  (nTime pindex) fSigchecks HTc Htc Hrate Hx Ht Henv HA HB) as Hr.
    cbv zeta in Hr.
    destruct ((nChainTx pindex =? 0) && (Tc =? 0) && ((rate =? 0) || (clock env =? tc)))
      eqn:Ez; [exfalso|exact Hr].
    apply andb_prop in Ez as [Ez Ew]. apply andb_prop in Ez as [Ex ET].
    apply Z.eqb_eq in Ex. apply Z.eqb_eq in ET.
    revert Hden. subst wb wa. unfold work_before, work_after.
    rewrite Ex, ET. change (0 <=? 0) with true. cbv iota.
    apply orb_prop in Ew as [Ew|Ew]; apply Z.eqb_eq in Ew; rewrite Ew;
      rewrite ?Z.sub_diag; change (inject_Z 0) with 0%Q; unfold Qdiv;
      intros H; ring_simplify in H; exact (Qlt_irrefl 0 H).
  - apply (Binary64Error.spec_progress_error Tc tc rate (clock env) (nChainTx pindex) (nTime pindex)
             fSigchecks); assumption.
Qed.



(** C6, as stated, fails: were GuessVerificationProgress to fall back to a
    default when fEnabled is false, it would return one and the same value
    for every block index; it does not. *)
Lemma GuessVerificationProgress_no_default :
  ~ (exists d : float, forall env pindex fSigchecks,
       fEnabled env = false ->
       GuessVerificationProgress env pindex fSigchecks = d).
Proof.
  intros [d Hd].
  pose (env := {| fEnabled := false; NetworkID := MAIN; clock := 1490629503 |}).
  pose proof (Hd env None false eq_refl) as H0.
  pose proof (Hd env (Some {| nChainTx := 1179921; nTime := 1490629503 |})
                false eq_refl) as H1.
  vm_compute in H0, H1. rewrite <- H0 in H1.
  apply (f_equal (fun x => PrimFloat.eqb x 0)) in H1. vm_compute in H1.
  discriminate H1.
Qed.

(** C6, amended. With fEnabled false, CheckBlock returns true,
    GetTotalBlocksEstimate 0 and GetLastCheckpoint NULL, whatever their
    arguments. GuessVerificationProgress does not read fEnabled: setting
    the flag to either value leaves its result unchanged. *)
Theorem fEnabled_consulted (env : Env) :
  (forall nHeight hash, CheckBlock (set_fEnabled false env) nHeight hash = true) /\
  GetTotalBlocksEstimate (set_fEnabled false env) = Some 0 /\
  (forall mapBlockIndex, GetLastCheckpoint (set_fEnabled false env) mapBlockIndex = None) /\
  (forall b pindex fSigchecks,
     GuessVerificationProgress (D := float) (set_fEnabled b env) pindex fSigchecks =
     GuessVerificationProgress (D := float) env pindex fSigchecks).
Proof.
  split; [|split; [|split]].
  - intros nHeight hash. unfold CheckBlock. reflexivity.
  - unfold GetTotalBlocksEstimate. reflexivity.
  - intros mapBlockIndex. unfold GetLastCheckpoint. reflexivity.
  - intros b pindex fSigchecks. unfold GuessVerificationProgress, Checkpoints.
    reflexivity.
Qed.

(** * Further properties

    Properties of the four operations beyond the statements above: how
    CheckBlock, GetTotalBlocksEstimate and GetLastCheckpoint fit together,
    the values GuessVerificationProgress takes at the ends of its range,
    the weight of signature checks and the accuracy of the binary64
    result. *)

(** ** Checkpoint heights and the block directory *)

(** Every height of the three tables is non-negative. *)
Lemma table_heights_nonneg (env : Env) (k : Z) (hash : uint256) :
  In (k, hash) (mapCheckpoints (Checkpoints (D := float) env)) -> 0 <= k.
Proof.
  destruct (Checkpoints_cases (D := float) env) as [[_ ->] | [[_ ->] | (_ & _ & ->)]];
    intros Hin; vm_compute in Hin;
    repeat (destruct Hin as [E | Hin]; [injection E as <- _; lia|]);
    destruct Hin.
Qed.

(** The heights of the active table lie between 0 and the estimate. *)
Lemma table_heights_bounded (env : Env) (k : Z) (hash : uint256) :
  fEnabled env = true ->
  In (k, hash) (mapCheckpoints (Checkpoints (D := float) env)) ->
  exists e, GetTotalBlocksEstimate env = Some e /\ 0 <= k <= e.
Proof.
  intros Hen Hin. unfold GetTotalBlocksEstimate. rewrite Hen. cbn [negb].
  pose proof (table_heights_nonneg env k hash Hin) as Hnonneg.
  set (table := mapCheckpoints (Checkpoints (D := float) env)) in *.
  destruct (StdMap.rbegin table) as [last|] eqn:Er.
  - exists (fst last). split; [reflexivity|].
    destruct (StdMapFacts.rbegin_max table last (table_sorted env) Er) as [_ Hmax].
    specialize (Hmax (k, hash) Hin). cbn [fst] in Hmax. lia.
  - unfold StdMap.rbegin in Er. apply last_None in Er. rewrite Er in Hin. destruct Hin.
Qed.

(** X1. A block at a height below 0 or above the height returned by
    GetTotalBlocksEstimate passes CheckBlock whatever its hash: no
    checkpoint constrains such a height. *)
Theorem CheckBlock_outside_heights (env : Env) (nHeight : Z) (hash : uint256) (h : Z) :
  GetTotalBlocksEstimate env = Some h ->
  nHeight < 0 \/ h < nHeight ->
  CheckBlock env nHeight hash = true.
Proof.
  intros Hest Hout. unfold CheckBlock.
  destruct (fEnabled env) eqn:Hen; cbn [negb]; [|reflexivity].
  set (table := mapCheckpoints (Checkpoints (D := float) env)).
  destruct (StdMap.find nHeight table) as [[k v]|] eqn:Ef; [exfalso|reflexivity].
  apply StdMapFacts.find_Some in Ef as [Hin Hk]. cbn [fst] in Hk. subst k.
  destruct (table_heights_bounded env nHeight v Hen Hin) as (e & He & Hb).
  rewrite Hest in He. injection He as <-. lia.
Qed.

Lemma CheckBlock_outside_heights_witness :
  CheckBlock {| fEnabled := true; NetworkID := MAIN; clock := 0 |} 1066429 7 = true /\
  CheckBlock {| fEnabled := true; NetworkID := MAIN; clock := 0 |} (-1) 7 = true.
Proof.
  split.
  - apply (CheckBlock_outside_heights
             {| fEnabled := true; NetworkID := MAIN; clock := 0 |} 1066429 7 1066428);
      [reflexivity|right; lia].
  - apply (CheckBlock_outside_heights
             {| fEnabled := true; NetworkID := MAIN; clock := 0 |} (-1) 7 1066428);
      [reflexivity|left; lia].
Defined.

(** What the scan returns, it has found in the directory under the hash of
    one of the entries it visits. *)
Lemma GetLastCheckpoint_loop_found todo (mapBlockIndex : gmap Z (option CBlockIndex)) b :
  GetLastCheckpoint_loop todo mapBlockIndex = Some b ->
  exists i, In i todo /\ mapBlockIndex !! snd i = Some (Some b).
Proof.
  induction todo as [|i todo IH]; cbn [GetLastCheckpoint_loop]; [discriminate|].
  destruct (mapBlockIndex !! snd i) as [t|] eqn:E.
  - intros ->. exists i. split; [left; reflexivity|exact E].
  - intros Hl. destruct (IH Hl) as (j & Hj & Ej). exists j. split; [right; exact Hj|exact Ej].
Qed.

(** The scan reads the directory at the hashes of its entries only. *)
Lemma GetLastCheckpoint_loop_ext todo (dir dir' : gmap Z (option CBlockIndex)) :
  (forall i, In i todo -> dir !! snd i = dir' !! snd i) ->
  GetLastCheckpoint_loop todo dir = GetLastCheckpoint_loop todo dir'.
Proof.
  induction todo as [|i todo IH]; intros Hagree; [reflexivity|].
  cbn [GetLastCheckpoint_loop]. rewrite <- (Hagree i (or_introl eq_refl)).
  destruct (dir !! snd i); [reflexivity|].
  apply IH. intros j Hj. apply Hagree. right. exact Hj.
Qed.

(** X2. A block index returned by GetLastCheckpoint is a checkpoint block:
    checkpoints are enabled, the directory stores it under the hash of an
    entry of the active table, that hash passes CheckBlock at the entry's
    height, and the height lies between 0 and the value of
    GetTotalBlocksEstimate. *)
Theorem GetLastCheckpoint_found (env : Env)
    (mapBlockIndex : gmap Z (option CBlockIndex)) (b : CBlockIndex) :
  GetLastCheckpoint env mapBlockIndex = Some b ->
  fEnabled env = true /\
  exists h hash e,
    In (h, hash) (mapCheckpoints (Checkpoints (D := float) env)) /\
    mapBlockIndex !! hash = Some (Some b) /\
    CheckBlock env h hash = true /\
    GetTotalBlocksEstimate env = Some e /\ 0 <= h <= e.
Proof.
  unfold GetLastCheckpoint, CheckBlock.
  destruct (fEnabled env) eqn:Hen; cbn [negb]; [|discriminate].
  set (table := mapCheckpoints (Checkpoints (D := float) env)).
  intros Hl. split; [reflexivity|].
  apply GetLastCheckpoint_loop_found in Hl as ([h hash] & Hin & Hdir).
  unfold StdMap.reverse_order in Hin. apply in_rev in Hin. cbn [snd] in Hdir.
  destruct (table_heights_bounded env h hash Hen Hin) as (e & He & Hb).
  exists h, hash, e. split; [exact Hin|]. split; [exact Hdir|].
  split; [|split; [exact He|exact Hb]].
  pose proof (StdMapFacts.find_In h hash table (table_sorted env) Hin) as Ef.
  rewrite Ef. cbn [snd]. apply Z.eqb_refl.
Qed.

Lemma GetLastCheckpoint_found_witness :
  let genesis := {| nChainTx := 1; nTime := 1390000000 |} in
  let env := {| fEnabled := true; NetworkID := MAIN; clock := 0 |} in
  let dir : gmap Z (option CBlockIndex) :=
    <[0x00000f639db5734b2b861ef8dbccc33aebd7de44d13de000a12d093bcc866c64 := Some genesis]> ∅ in
  exists h hash e,
    In (h, hash) (mapCheckpoints (Checkpoints (D := float) env)) /\
    dir !! hash = Some (Some genesis) /\
    CheckBlock env h hash = true /\
    GetTotalBlocksEstimate env = Some e /\ 0 <= h <= e.
Proof.
  intros genesis env dir.
  apply (proj2 (GetLastCheckpoint_found env dir genesis eq_refl)).
Defined.

(** X3. GetLastCheckpoint reads the directory at the hashes of the active
    table only: adding, replacing or removing the directory's entry for a
    hash that is no checkpoint hash of the active table leaves its result
    unchanged. *)
Theorem GetLastCheckpoint_other_hash (env : Env)
    (mapBlockIndex : gmap Z (option CBlockIndex)) (hash : uint256)
    (t : option CBlockIndex) :
  (forall h, ~ In (h, hash) (mapCheckpoints (Checkpoints (D := float) env))) ->
  GetLastCheckpoint env (<[hash := t]> mapBlockIndex) =
    GetLastCheckpoint env mapBlockIndex /\
  GetLastCheckpoint env (delete hash mapBlockIndex) =
    GetLastCheckpoint env mapBlockIndex.
Proof.
  intros Hother. unfold GetLastCheckpoint.
  destruct (fEnabled env); cbn [negb]; [|split; reflexivity].
  set (table := mapCheckpoints (Checkpoints (D := float) env)) in *.
  assert (Hne : forall i, In i (StdMap.reverse_order table) -> hash <> snd i).
  { intros [h hash'] Hi Heq. cbn [snd] in Heq. subst hash'.
    apply (Hother h). apply in_rev. exact Hi. }
  split; apply GetLastCheckpoint_loop_ext; intros i Hi.
  - apply lookup_insert_ne. exact (Hne i Hi).
  - apply lookup_delete_ne. exact (Hne i Hi).
Qed.

Lemma GetLastCheckpoint_other_hash_witness :
  let env := {| fEnabled := true; NetworkID := TESTNET; clock := 0 |} in
  let dir : gmap Z (option CBlockIndex) := ∅ in
  GetLastCheckpoint env (<[7 := Some {| nChainTx := 1; nTime := 2 |}]> dir) =
    GetLastCheckpoint env dir.
Proof.
  intros env dir.
  refine (proj1 (GetLastCheckpoint_other_hash env dir 7
                   (Some {| nChainTx := 1; nTime := 2 |}) _)).
  intros h Hin. vm_compute in Hin. destruct Hin as [E|[]]. discriminate E.
Defined.

(** X4. With checkpoints enabled, when the directory has an entry for the
    hash of the table's last checkpoint, GetLastCheckpoint returns that
    entry, whatever else the directory holds, and the checkpoint's height
    is the value of GetTotalBlocksEstimate. *)
Theorem GetLastCheckpoint_last (env : Env)
    (mapBlockIndex : gmap Z (option CBlockIndex)) (last : Z * uint256)
    (t : option CBlockIndex) :
  fEnabled env = true ->
  StdMap.rbegin (mapCheckpoints (Checkpoints (D := float) env)) = Some last ->
  mapBlockIndex !! snd last = Some t ->
  GetLastCheckpoint env mapBlockIndex = t /\
  GetTotalBlocksEstimate env = Some (fst last).
Proof.
  intros Hen Hlast Hdir. unfold GetLastCheckpoint, GetTotalBlocksEstimate.
  rewrite Hen. cbn [negb]. rewrite Hlast. split; [|reflexivity].
  unfold StdMap.rbegin in Hlast. apply last_Some in Hlast as [m' ->].
  unfold StdMap.reverse_order. rewrite rev_app_distr. cbn [rev app].
  cbn [GetLastCheckpoint_loop]. rewrite Hdir. reflexivity.
Qed.

Lemma GetLastCheckpoint_last_witness :
  let tip := {| nChainTx := 1179921; nTime := 1490629503 |} in
  let env := {| fEnabled := true; NetworkID := MAIN; clock := 0 |} in
  let dir : gmap Z (option CBlockIndex) :=
    <[0x000000012dc5256d977b50270d1ca5642726308dcf26b6c219985edb8f2ab8f6 := Some tip]> ∅ in
  GetLastCheckpoint env dir = Some tip /\ GetTotalBlocksEstimate env = Some 1066428.
Proof.
  intros tip env dir.
  apply (GetLastCheckpoint_last env dir
           (1066428, 0x000000012dc5256d977b50270d1ca5642726308dcf26b6c219985edb8f2ab8f6)
           (Some tip)); reflexivity.
Defined.

(** ** The ends of the range, in binary64 *)

Module Binary64Ends.
Import Binary64 Binary64Facts.

(** A positive number over itself plus zero is one. *)
Lemma quotient_one lo hi a b :
  pos_small lo hi (Prim2SF a) -> is_zero_SF (Prim2SF b) ->
  (a / (a + b))%float = 1%float.
Proof.
  intros Ha Hb. apply Prim2SF_inj. rewrite div_spec, add_spec.
  change (Prim2SF 1) with SFone. unfold SF64div, SF64add.
  destruct (Prim2SF a) as [| | |[|] m1 e1]; try (destruct Ha; fail).
  destruct (Prim2SF b) as [sb| | |sb mb eb]; try (destruct Hb; fail).
  cbn [SFadd]. apply SFdiv_self.
Qed.

(** A positive number over itself plus a non-negative one is positive. *)
Lemma quotient_pos lo hi k a b :
  pos_small lo hi (Prim2SF a) -> small k (Prim2SF b) ->
  -200 <= lo -> hi <= k -> k <= 200 ->
  PrimFloat.ltb 0 (a / (a + b)) = true.
Proof.
  intros Ha Hb Hlo Hhi Hk.
  assert (Hk0 : -1074 <= k).
  { destruct (Prim2SF a) as [| | |[|] m1 e1]; try (destruct Ha; fail).
    cbn [pos_small] in Ha. pose proof (Zdigits2_pos (Z.pos m1) ltac:(lia)). lia. }
  pose proof (fadd_pos_l lo hi k a b Ha Hb Hhi ltac:(lia)) as Hs.
  pose proof (Prim2SF_valid (a + b)) as Vs. pose proof (Prim2SF_valid a) as Va.
  rewrite ltb_spec, div_spec. change (Prim2SF 0) with (S754_zero false).
  unfold SF64div.
  destruct (Prim2SF (a + b)) as [| | |[|] m2 e2]; try (destruct Hs; fail).
  cbn [pos_small] in Hs.
  pose proof (valid_finite_bounds _ _ _ Vs) as (_ & _ & Hd2).
  specialize (Hd2 ltac:(lia)).
  assert (Hhi' : lo < hi).
  { destruct (Prim2SF a) as [| | |[|] m1 e1]; try (destruct Ha; fail).
    cbn [pos_small] in Ha. pose proof (Zdigits2_pos (Z.pos m1) ltac:(lia)). lia. }
  pose proof (SFdiv_pos lo hi (Prim2SF a) m2 e2 Ha Va ltac:(lia) Hd2
                ltac:(lia) ltac:(lia)) as Hq.
  destruct (SFdiv prec emax (Prim2SF a) (S754_finite false m2 e2))
    as [| | |[|] m e]; try (destruct Hq; fail).
  reflexivity.
Qed.

Section Ends.
Variables (Tc tc rate now x t : Z) (fast : bool).
Hypothesis HTc : 0 <= Tc < 2 ^ 31.
Hypothesis Htc : 0 <= tc < 2 ^ 32.
Hypothesis Hrate : 0 <= rate < 2 ^ 31.
Hypothesis Hx : 0 <= x < 2 ^ 64.
Hypothesis Ht : 0 <= t < 2 ^ 32.
Hypothesis Hnow : - 2 ^ 63 + 2 ^ 32 <= now < 2 ^ 63.

Let F : float := if fast then double_of_int 5 else double_of_int 1.
Let R : float := double_of_int rate.

(** The work done before a block index past the checkpoint. *)
Lemma work_before_past :
  Tc < x ->
  pos_small (-104) 72
    (Prim2SF (double_of_int Tc + double_of_int (x - Tc) * F)%float).
Proof.
  intros Hpast.
  assert (Hxb : pos_small (-104) 70 (Prim2SF (double_of_int (x - Tc) * F)%float)).
  { apply (fmul_pos (-52) 65 (-52) 4); [|exact (factor_pos_small fast)|lia|lia].
    apply (of_int_pos (x - Tc) 64); lia. }
  destruct (Z.eq_dec Tc 0) as [E|NE].
  - rewrite E in Hxb |- *. change (double_of_int 0) with 0%float.
    rewrite add_spec. change (Prim2SF 0) with (S754_zero false). unfold SF64add.
    destruct (Prim2SF (double_of_int (x - 0) * F)) as [| | |[|] m e];
      try (destruct Hxb; fail).
    cbn [SFadd pos_small] in Hxb |- *. lia.
  - apply (pos_small_le (-52) 72); [|lia|lia].
    apply (fadd_pos_l (-52) 32 70); [|exact (pos_small_small _ _ _ Hxb)|lia|lia].
    apply (of_int_pos Tc 31); lia.
Qed.

(** All the work is done: the quotient is exactly one. *)
Lemma spec_progress_one :
  (Tc < x /\ t <= now /\ (t = now \/ rate = 0)) \/
  (x = Tc /\ 0 < Tc /\ tc <= now /\ (now = tc \/ rate = 0)) ->
  spec_progress (D := float) Tc tc R now x t fast = 1%float.
Proof.
  intros Hdone. unfold spec_progress. cbn [of_int fadd fmul fdiv binary64]. fold F.
  destruct Hdone as [(Hpast & Hle & Hz) | (-> & Hpos & Hle & Hz)].
  - rewrite (proj2 (Z.leb_gt x Tc) Hpast).
    apply (quotient_one _ _ _ _ (work_before_past Hpast)).
    apply expensive_zero; [exact Hrate|lia|lia].
  - rewrite Z.leb_refl, Z.sub_diag. change (double_of_int 0) with 0%float.
    apply (quotient_one (-52) 32); [apply (of_int_pos Tc 31); lia|].
    apply fadd_zero; [exact I|]. apply expensive_zero; [exact Hrate|lia|lia].
Qed.

(** No work is done and some is left: the quotient is zero. *)
Lemma spec_progress_zero :
  x = 0 -> tc <= now -> 0 < Tc \/ (tc < now /\ 0 < rate) ->
  spec_progress (D := float) Tc tc R now x t fast = 0%float.
Proof.
  intros -> Hle Hwork. unfold spec_progress. cbn [of_int fadd fmul fdiv binary64]. fold F.
  rewrite (proj2 (Z.leb_le 0 Tc)) by lia. rewrite Z.sub_0_r.
  change (double_of_int 0) with 0%float.
  assert (Hdelta : 0 <= now - tc < 2 ^ 64) by lia.
  pose proof (expensive_small rate fast Hrate (now - tc) Hdelta) as HX.
  destruct (Z.eq_dec Tc 0) as [E|NE].
  - destruct Hwork as [Hpos|[Hlt Hr]]; [lia|].
    rewrite E. change (double_of_int 0) with 0%float.
    pose proof (expensive_pos rate fast Hrate (now - tc) ltac:(lia) Hr) as HXp.
    destruct (fadd_pos_r (-173) 88 88 0%float _ I HXp ltac:(lia) ltac:(lia)) as [lo Hp].
    exact (quotient_zero _ _ _ Hp).
  - assert (HTcp : pos_small (-52) 32 (Prim2SF (double_of_int Tc)))
      by (apply (of_int_pos Tc 31); lia).
    exact (quotient_zero _ _ _
             (fadd_pos_l (-52) 32 88 _ _ HTcp HX ltac:(lia) ltac:(lia))).
Qed.

(** Some work is done and the work left is not negative. *)
Lemma spec_progress_positive :
  0 < x -> (x <= Tc -> tc <= now) -> (Tc < x -> t <= now) ->
  PrimFloat.ltb 0 (spec_progress (D := float) Tc tc R now x t fast) = true.
Proof.
  intros Hpos HA HB. unfold spec_progress.
  cbn [of_int fadd fmul fdiv binary64]. fold F.
  destruct (x <=? Tc) eqn:E.
  - apply Z.leb_le in E. specialize (HA E).
    assert (Hdelta : 0 <= now - tc < 2 ^ 64) by lia.
    pose proof (expensive_small rate fast Hrate (now - tc) Hdelta) as HX.
    assert (Hcheap : small 88 (Prim2SF (double_of_int (Tc - x)))).
    { apply (small_le 32); [|lia]. apply (of_int_small (Tc - x) 31); lia. }
    pose proof (fadd_small 88 _ _ Hcheap HX ltac:(lia)) as Hwa.
    apply (quotient_pos (-52) 32 90); [|exact Hwa|lia|lia|lia].
    apply (of_int_pos x 31); lia.
  - apply Z.leb_gt in E. specialize (HB E).
    assert (Hdelta : 0 <= now - t < 2 ^ 64) by lia.
    pose proof (expensive_small rate fast Hrate (now - t) Hdelta) as HX.
    apply (quotient_pos (-104) 72 88); [exact (work_before_past E)|exact HX|lia|lia|lia].
Qed.

End Ends.
End Binary64Ends.

(** The rate of the active profile is an integer: 960 on the Main and Test
    networks, 0 otherwise; only the profile of the Main network counts
    transactions before its last checkpoint. *)
Lemma profile_rate (env : Env) :
  exists rate, 0 <= rate < 2 ^ 31 /\
    fTransactionsPerDay (Checkpoints (D := float) env) = double_of_int rate /\
    (NetworkID env = MAIN \/ NetworkID env = TESTNET -> 0 < rate) /\
    (NetworkID env <> TESTNET -> NetworkID env <> MAIN ->
     rate = 0 /\ nTransactionsLastCheckpoint (Checkpoints (D := float) env) = 0) /\
    (NetworkID env = MAIN -> 0 < nTransactionsLastCheckpoint (Checkpoints (D := float) env)).
Proof.
  destruct (Checkpoints_cases (D := float) env) as [[Hn ->] | [[Hn ->] | (Ht & Hm & ->)]].
  - exists 960. repeat split; try reflexivity; try lia; try congruence.
  - exists 960. repeat split; try reflexivity; try lia; try congruence.
  - exists 0. repeat split; try reflexivity; try lia; try congruence.
    intros [?|?]; congruence.
Qed.

(** X5. GuessVerificationProgress returns exactly 1.0, in binary64 and for
    both values of fSigchecks, when no work is left: for a block index
    past the profile's last checkpoint whose time is the clock's value,
    for one with exactly the checkpoint's (non-zero) transaction count when
    the clock is at the checkpoint's time, and, on a network with the
    zero-rate profile, for every block index with at least one transaction
    whose time is not after the clock. *)
Theorem GuessVerificationProgress_done (env : Env) (pindex : CBlockIndex)
    (fSigchecks : bool) :
  let profile := Checkpoints (D := float) env in
  let Tc := nTransactionsLastCheckpoint profile in
  let tc := nTimeLastCheckpoint profile in
  wf_Env env -> wf_CBlockIndex pindex ->
  (Tc < nChainTx pindex /\ nTime pindex = clock env) \/
  (nChainTx pindex = Tc /\ 0 < Tc /\ clock env = tc) \/
  (NetworkID env <> TESTNET /\ NetworkID env <> MAIN /\
   0 < nChainTx pindex /\ nTime pindex <= clock env) ->
  GuessVerificationProgress env (Some pindex) fSigchecks = 1%float.
Proof.
  intros profile Tc tc Henv Hp Hdone.
  rewrite (GuessVerificationProgress_unfold env pindex fSigchecks Henv Hp).
  fold profile Tc tc.
  destruct (profile_bounds (D := float) env) as [HTc Htc]. fold profile Tc tc in HTc, Htc.
  destruct (profile_rate env) as (rate & Hrate & Er & _ & Hreg & _).
  fold profile Tc in Er, Hreg. rewrite Er.
  destruct Hp as [Hx Ht]. unfold Int.in_unsigned in Hx, Ht. unfold wf_Env in Henv.
  apply Binary64Ends.spec_progress_one; try assumption.
  destruct Hdone as [(Hpast & Hnow) | [(Hat & Hpos & Hnow) | (Hn1 & Hn2 & Hpos & Hle)]].
  - left. split; [exact Hpast|]. split; [lia|left; exact Hnow].
  - right. split; [exact Hat|]. split; [exact Hpos|]. split; [lia|left; exact Hnow].
  - destruct (Hreg Hn1 Hn2) as [Hr0 HTc0]. left.
    split; [lia|]. split; [exact Hle|right; exact Hr0].
Qed.

Lemma GuessVerificationProgress_done_witness :
  GuessVerificationProgress (D := float)
    {| fEnabled := true; NetworkID := MAIN; clock := 1500000000 |}
    (Some {| nChainTx := 1200000; nTime := 1500000000 |}) true = 1%float.
Proof.
  apply (GuessVerificationProgress_done
           {| fEnabled := true; NetworkID := MAIN; clock := 1500000000 |}
           {| nChainTx := 1200000; nTime := 1500000000 |} true).
  - well_formed.
  - well_formed.
  - left. split; [vm_compute; reflexivity|reflexivity].
Defined.

(** X6. For a block index with no transactions GuessVerificationProgress
    returns exactly 0.0, in binary64 and for both values of fSigchecks, on
    the Main network when the clock is not before the last checkpoint's
    time, and on the Test network when the clock is after it. *)
Theorem GuessVerificationProgress_start (env : Env) (pindex : CBlockIndex)
    (fSigchecks : bool) :
  let tc := nTimeLastCheckpoint (Checkpoints (D := float) env) in
  wf_Env env -> wf_CBlockIndex pindex ->
  nChainTx pindex = 0 ->
  (NetworkID env = MAIN /\ tc <= clock env) \/
  (NetworkID env = TESTNET /\ tc < clock env) ->
  GuessVerificationProgress env (Some pindex) fSigchecks = 0%float.
Proof.
  intros tc Henv Hp Hx0 Hnet.
  rewrite (GuessVerificationProgress_unfold env pindex fSigchecks Henv Hp).
  fold tc.
  destruct (profile_bounds (D := float) env) as [HTc Htc]. fold tc in Htc.
  destruct (profile_rate env) as (rate & Hrate & Er & Hrpos & _ & HTcpos).
  rewrite Er.
  destruct Hp as [Hx Ht]. unfold Int.in_unsigned in Hx, Ht. unfold wf_Env in Henv.
  apply Binary64Ends.spec_progress_zero; try assumption.
  - destruct Hnet as [[_ ?]|[_ ?]]; lia.
  - destruct Hnet as [[Hm _]|[Hn Hlt]].
    + left. exact (HTcpos Hm).
    + right. split; [exact Hlt|]. apply Hrpos. right. exact Hn.
Qed.

Lemma GuessVerificationProgress_start_witness :
  GuessVerificationProgress (D := float)
    {| fEnabled := true; NetworkID := TESTNET; clock := 1500000000 |}
    (Some {| nChainTx := 0; nTime := 1388868139 |}) true = 0%float.
Proof.
  apply (GuessVerificationProgress_start
           {| fEnabled := true; NetworkID := TESTNET; clock := 1500000000 |}
           {| nChainTx := 0; nTime := 1388868139 |} true).
  - well_formed.
  - well_formed.
  - reflexivity.
  - right. split; [reflexivity|vm_compute; reflexivity].
Defined.

(** X7. For a block index with at least one transaction
    GuessVerificationProgress returns, in binary64, a number strictly above
    0 (so neither NaN nor a zero), provided the clock is not before the
    time the remaining work is counted from: the last checkpoint's time up
    to the checkpoint, the block's own time past it. *)
Theorem GuessVerificationProgress_positive (env : Env) (pindex : CBlockIndex)
    (fSigchecks : bool) :
  let profile := Checkpoints (D := float) env in
  let Tc := nTransactionsLastCheckpoint profile in
  let tc := nTimeLastCheckpoint profile in
  wf_Env env -> wf_CBlockIndex pindex ->
  0 < nChainTx pindex ->
  (nChainTx pindex <= Tc -> tc <= clock env) ->
  (Tc < nChainTx pindex -> nTime pindex <= clock env) ->
  PrimFloat.ltb 0 (GuessVerificationProgress env (Some pindex) fSigchecks) = true.
Proof.
  intros profile Tc tc Henv Hp Hpos HA HB.
  rewrite (GuessVerificationProgress_unfold env pindex fSigchecks Henv Hp).
  fold profile Tc tc.
  destruct (profile_bounds (D := float) env) as [HTc Htc]. fold profile Tc tc in HTc, Htc.
  destruct (profile_rate env) as (rate & Hrate & Er & _). fold profile in Er. rewrite Er.
  destruct Hp as [Hx Ht]. unfold Int.in_unsigned in Hx, Ht. unfold wf_Env in Henv.
  apply Binary64Ends.spec_progress_positive; assumption.
Qed.

Lemma GuessVerificationProgress_positive_witness :
  PrimFloat.ltb 0
    (GuessVerificationProgress (D := float)
       {| fEnabled := true; NetworkID := MAIN; clock := 1500000000 |}
       (Some {| nChainTx := 1; nTime := 1390000000 |}) false) = true.
Proof.
  apply (GuessVerificationProgress_positive
           {| fEnabled := true; NetworkID := MAIN; clock := 1500000000 |}
           {| nChainTx := 1; nTime := 1390000000 |} false).
  - well_formed.
  - well_formed.
  - cbn [nChainTx]. lia.
  - intros _. vm_compute. discriminate.
  - intros H. vm_compute in H. discriminate H.
Defined.

(** ** The weight of signature checks and the accuracy of the result *)

Module ExactCompare.
Import ExactModel ExactFacts.
Local Open Scope Q_scope.

(** With the weight of a signature check, the fraction of the work done
    can only shrink. *)
Lemma fraction_weighted (Tc tc : Z) (R : Q) (now x t : Z) :
  (0 <= Tc)%Z -> 0 <= R -> (0 <= x)%Z ->
  ((x <= Tc)%Z -> (tc <= now)%Z /\ ((0 < Tc)%Z \/ ((tc < now)%Z /\ 0 < R))) ->
  (Tc < x -> t <= now)%Z ->
  work_before Tc x true / (work_before Tc x true + work_after Tc tc R now x t true) <=
  work_before Tc x false / (work_before Tc x false + work_after Tc tc R now x t false).
Proof.
  intros HTc HR Hx HA HB.
  pose proof (denominator_pos Tc tc R now true HTc HR x t Hx HA HB) as H5.
  pose proof (denominator_pos Tc tc R now false HTc HR x t Hx HA HB) as H1.
  apply Qdiv_le_cross; [exact H5|exact H1|].
  unfold work_before, work_after, factor in *.
  assert (E5 : inject_Z 5 == 5) by reflexivity.
  assert (E1 : inject_Z 1 == 1) by reflexivity.
  destruct (x <=? Tc)%Z eqn:E.
  - apply Z.leb_le in E. destruct (HA E) as [Hnow _].
    assert (Hx0 : 0 <= inject_Z x) by (apply (inject_Z_le 0 x); exact Hx).
    assert (Hd : 0 <= inject_Z (now - tc) / inject_Z 86400 * R)
      by (apply Qmult_le_0_compat; [apply days_nonneg; lia|exact HR]).
    set (d := inject_Z (now - tc) / inject_Z 86400 * R) in *.
    rewrite E5, E1. nra.
  - apply Z.leb_gt in E.
    assert (HT0 : 0 <= inject_Z Tc) by (apply (inject_Z_le 0 Tc); exact HTc).
    assert (Hd : 0 <= inject_Z (now - t) / inject_Z 86400 * R)
      by (apply Qmult_le_0_compat; [apply days_nonneg; lia|exact HR]).
    set (d := inject_Z (now - t) / inject_Z 86400 * R) in *.
    set (a := inject_Z (x - Tc)) in *. set (T := inject_Z Tc) in *.
    rewrite E5, E1.
    assert (HTd : 0 <= T * d) by (apply Qmult_le_0_compat; assumption).
    nra.
Qed.

End ExactCompare.

(** X8. Counting signature checks does not raise the binary64 estimate
    beyond rounding: for a block index whose members fit their types and a
    clock value in range, when no time difference is negative and the
    denominator is not zero, the results for fSigchecks true and false are
    both numbers of [0,1] and the first is at most the second times
    [1 + 2 ^ -46]. *)
Theorem GuessVerificationProgress_sigchecks (env : Env) (pindex : CBlockIndex) :
  let profile := Checkpoints (D := float) env in
  let Tc := nTransactionsLastCheckpoint profile in
  let tc := nTimeLastCheckpoint profile in
  let r5 := GuessVerificationProgress env (Some pindex) true in
  let r1 := GuessVerificationProgress env (Some pindex) false in
  wf_Env env -> wf_CBlockIndex pindex ->
  (nChainTx pindex <= Tc ->
   tc <= clock env /\
   (0 < Tc \/
    (tc < clock env /\ PrimFloat.ltb 0 (fTransactionsPerDay profile) = true))) ->
  (Tc < nChainTx pindex -> nTime pindex <= clock env) ->
  in_unit_interval r5 = true /\ in_unit_interval r1 = true /\
  (B2Q r5 <= (1 + (1 # 2 ^ 46)) * B2Q r1)%Q.
Proof.
  intros profile Tc tc r5 r1 Henv Hp HA HB.
  destruct (profile_rates env) as (rate & Hrate & Er & _ & _ & _ & Hpos).
  fold profile in Er, Hpos.
  destruct (profile_bounds (D := float) env) as [HTc _]. fold profile Tc in HTc.
  pose proof Hp as [Hx _]. unfold Int.in_unsigned in Hx.
  assert (Hr0 : (0 <= inject_Z rate)%Q) by (apply (ExactFacts.inject_Z_le 0); lia).
  assert (HA' : nChainTx pindex <= Tc ->
                tc <= clock env /\ (0 < Tc \/ (tc < clock env /\ (0 < inject_Z rate)%Q))).
  { intros H. destruct (HA H) as [H1 [H2|[H2 H3]]]; [auto|].
    split; [exact H1|right]. split; [exact H2|].
    apply (ExactFacts.inject_Z_lt 0). apply Hpos. exact H3. }
  assert (Hd : forall f, (0 < work_before Tc (nChainTx pindex) f +
      work_after Tc tc (inject_Z rate) (clock env) (nChainTx pindex) (nTime pindex) f)%Q).
  { intros f. apply ExactFacts.denominator_pos; [lia|exact Hr0|lia|exact HA'|exact HB]. }
  pose proof (ExactCompare.fraction_weighted Tc tc (inject_Z rate) (clock env)
                (nChainTx pindex) (nTime pindex) ltac:(lia) Hr0 ltac:(lia) HA' HB) as Hle.
  assert (Hq1 : (0 <= work_before Tc (nChainTx pindex) false /
     (work_before Tc (nChainTx pindex) false +
      work_after Tc tc (inject_Z rate) (clock env) (nChainTx pindex) (nTime pindex) false))%Q).
  { apply ExactFacts.fraction_unit; [apply ExactFacts.work_before_nonneg; lia| |apply Hd].
    apply ExactFacts.work_after_nonneg; [exact Hr0| |exact HB].
    intros H. apply (HA' H). }
  pose proof (GuessVerificationProgress_near env pindex true rate Henv Hp Hrate Er) as N3.
  cbv zeta in N3. fold profile Tc tc in N3.
  destruct N3 as [U5 [_ B5]]; [intros H; apply (HA H)|exact HB|apply Hd|].
  pose proof (GuessVerificationProgress_near env pindex false rate Henv Hp Hrate Er) as N4.
  cbv zeta in N4. fold profile Tc tc in N4.
  destruct N4 as [U1 [B1 _]]; [intros H; apply (HA H)|exact HB|apply Hd|].
  fold profile Tc tc in B1, B5. fold r1 in U1, B1. fold r5 in U5, B5.
  split; [exact U5|]. split; [exact U1|].
  change (1 # 2 ^ 48) with (1 # 281474976710656) in B1, B5.
  change (1 # 2 ^ 46) with (1 # 70368744177664).
  lra.
Qed.

Lemma GuessVerificationProgress_sigchecks_witness :
  let env := {| fEnabled := true; NetworkID := MAIN; clock := 1500000000 |} in
  let p := {| nChainTx := 1200000; nTime := 1495000000 |} in
  in_unit_interval (GuessVerificationProgress (D := float) env (Some p) true) = true /\
  in_unit_interval (GuessVerificationProgress (D := float) env (Some p) false) = true /\
  (B2Q (GuessVerificationProgress env (Some p) true)
     <= (1 + (1 # 2 ^ 46)) * B2Q (GuessVerificationProgress env (Some p) false))%Q.
Proof.
  refine (GuessVerificationProgress_sigchecks
            {| fEnabled := true; NetworkID := MAIN; clock := 1500000000 |}
            {| nChainTx := 1200000; nTime := 1495000000 |} _ _ _ _).
  - well_formed.
  - well_formed.
  - intros H. vm_compute in H. exfalso. apply H. reflexivity.
  - intros _. cbn [nTime clock]. lia.
Defined.

(** X10. The binary64 result is the ideal value of the formula up to one
    part in [2 ^ 48]: for a block index whose members fit their types and a
    clock value in range, when no time difference is negative and the
    denominator is not zero, the exact quotient workBefore / (workBefore +
    workAfter) is a rational q of [0,1], the binary64 result is a number of
    [0,1], and it lies between [(1 - 2 ^ -48) * q] and
    [(1 + 2 ^ -48) * q]. *)
Theorem GuessVerificationProgress_accuracy (env : Env) (pindex : CBlockIndex)
    (fSigchecks : bool) :
  let profile := Checkpoints (D := float) env in
  let Tc := nTransactionsLastCheckpoint profile in
  let tc := nTimeLastCheckpoint profile in
  let r := GuessVerificationProgress env (Some pindex) fSigchecks in
  wf_Env env -> wf_CBlockIndex pindex ->
  (nChainTx pindex <= Tc ->
   tc <= clock env /\
   (0 < Tc \/
    (tc < clock env /\ PrimFloat.ltb 0 (fTransactionsPerDay profile) = true))) ->
  (Tc < nChainTx pindex -> nTime pindex <= clock env) ->
  exists q : Q,
    GuessVerificationProgress (D := exact) env (Some pindex) fSigchecks = Exact q /\
    (0 <= q <= 1)%Q /\
    in_unit_interval r = true /\
    ((1 - (1 # 2 ^ 48)) * q <= B2Q r <= (1 + (1 # 2 ^ 48)) * q)%Q.
Proof.
  intros profile Tc tc r Henv Hp HA HB.
  destruct (profile_rates env) as (rate & Hrate & Er & Ee & ETc & Etc & Hpos).
  fold profile in Er, Hpos. fold profile Tc in ETc. fold profile tc in Etc.
  destruct (profile_bounds (D := float) env) as [HTc _]. fold profile Tc in HTc.
  pose proof Hp as [Hx _]. unfold Int.in_unsigned in Hx.
  assert (Hr0 : (0 <= inject_Z rate)%Q) by (apply (ExactFacts.inject_Z_le 0); lia).
  assert (HA' : nChainTx pindex <= Tc ->
                tc <= clock env /\ (0 < Tc \/ (tc < clock env /\ (0 < inject_Z rate)%Q))).
  { intros H. destruct (HA H) as [H1 [H2|[H2 H3]]]; [auto|].
    split; [exact H1|right]. split; [exact H2|].
    apply (ExactFacts.inject_Z_lt 0). apply Hpos. exact H3. }
  set (wb := work_before Tc (nChainTx pindex) fSigchecks).
  set (wa := work_after Tc tc (inject_Z rate) (clock env) (nChainTx pindex)
               (nTime pindex) fSigchecks).
  assert (Hd : (0 < wb + wa)%Q).
  { apply ExactFacts.denominator_pos; [lia|exact Hr0|lia|exact HA'|exact HB]. }
  exists (wb / (wb + wa))%Q. split; [|split].
  - rewrite (GuessVerificationProgress_exact env pindex fSigchecks (inject_Z rate) Henv Hp Ee).
    rewrite ETc, Etc. fold wb wa. apply ExactFacts.exact_div_defined. exact Hd.
  - apply ExactFacts.fraction_unit; [apply ExactFacts.work_before_nonneg; lia| |exact Hd].
    apply ExactFacts.work_after_nonneg; [exact Hr0| |exact HB].
    intros H. apply (HA' H).
  - pose proof (GuessVerificationProgress_near env pindex fSigchecks rate Henv Hp Hrate Er)
      as N. cbv zeta in N. fold profile Tc tc wb wa r in N.
    apply N; [intros H; apply (HA H)|exact HB|exact Hd].
Qed.

Lemma GuessVerificationProgress_accuracy_witness :
  let env := {| fEnabled := true; NetworkID := MAIN; clock := 1500000000 |} in
  let p := {| nChainTx := 1200000; nTime := 1495000000 |} in
  exists q : Q,
    GuessVerificationProgress (D := exact) env (Some p) true = Exact q /\
    (0 <= q <= 1)%Q /\
    in_unit_interval (GuessVerificationProgress (D := float) env (Some p) true) = true /\
    ((1 - (1 # 2 ^ 48)) * q <= B2Q (GuessVerificationProgress env (Some p) true)
       <= (1 + (1 # 2 ^ 48)) * q)%Q.
Proof.
  refine (GuessVerificationProgress_accuracy
            {| fEnabled := true; NetworkID := MAIN; clock := 1500000000 |}
            {| nChainTx := 1200000; nTime := 1495000000 |} true _ _ _ _).
  - well_formed.
  - well_formed.
  - intros H. vm_compute in H. exfalso. apply H. reflexivity.
  - intros _. cbn [nTime clock]. lia.
Defined.
